(** * launch_ros: the [SetParametersFromFiles] action

    A shallow embedding of
    [launch_ros/actions/set_parameters_from_files.py] and the properties of
    its constructor, its [parse] class method and its [execute] method.

    Python objects that the action shares with the rest of the launch system
    (the list stored under the [global_params] key) live in an object store
    and are referred to by identity, so that in-place mutation and aliasing
    are visible.  Exceptions are results; a computation on the launch context
    returns the context it reached also when it raises.  A substitution is
    handed the context and may write to it. *)

From stdpp Require Import gmap strings list fin_maps.

Open Scope string_scope.
Open Scope list_scope.

(** ** Exceptions and results *)

Inductive Exception :=
| TypeError (msg : string)
| AttributeError (msg : string)
| InvalidSubstitutionInput
| SubstitutionResolutionError (msg : string)
| FrontendError (msg : string).

Inductive Result (A : Type) :=
| Ok (a : A)
| Raise (e : Exception).
Arguments Ok {A} a.
Arguments Raise {A} e.

#[global] Instance Result_ret : MRet Result := @Ok.
#[global] Instance Result_bind : MBind Result := λ A B f m,
  match m with
  | Ok a => f a
  | Raise e => Raise e
  end.

(** [for x in items: s = body(s, x)], the loop state threaded by hand. *)
Fixpoint for_in {A S : Type} (items : list A) (body : S → A → Result S)
    (s : S) : Result S :=
  match items with
  | [] => Ok s
  | x :: rest => s' ← body s x; for_in rest body s'
  end.

(** ** The launch context *)

(** Identity of a Python list object: its index in the object store. *)
Abbreviation loc := nat.

(** What a configuration key is bound to: a text, or a reference to a list
    object (the only mutable objects this action handles). *)
Inductive value :=
| VText (s : string)
| VList (l : loc).

(** The context with what is reachable from it: the configuration mapping,
    the list objects its values refer to, the ambient data that
    substitutions read, and the files opened so far in the launch. *)
Record LaunchContext := {
  launch_configurations : gmap string value;
  objects : list (list string);
  environment : gmap string string;
  opened_files : list string
}.

Definition set_launch_configurations (cfg : gmap string value)
    (ctx : LaunchContext) : LaunchContext :=
  {| launch_configurations := cfg;
     objects := objects ctx;
     environment := environment ctx;
     opened_files := opened_files ctx |}.

Definition set_objects (objs : list (list string))
    (ctx : LaunchContext) : LaunchContext :=
  {| launch_configurations := launch_configurations ctx;
     objects := objs;
     environment := environment ctx;
     opened_files := opened_files ctx |}.

(** Computations on a state: a result and the state reached, which is kept
    when an exception is raised. *)
Definition St (S A : Type) : Type := S → Result A * S.

#[global] Instance St_ret {S} : MRet (St S) := λ A a st, (Ok a, st).
#[global] Instance St_bind {S} : MBind (St S) := λ A B f m st,
  match m st with
  | (Ok a, st') => f a st'
  | (Raise e, st') => (Raise e, st')
  end.

(** Computations on the launch context. *)
Abbreviation Exec := (St LaunchContext).

(** [for x in items: body(x)] *)
Fixpoint for_each {S A : Type} (items : list A) (body : A → St S unit)
    : St S unit :=
  match items with
  | [] => mret tt
  | x :: rest => body x;; for_each rest body
  end.

(** [for x in items: acc = body(acc, x)], in a computation on a state. *)
Fixpoint fold_st {S A B : Type} (items : list A) (body : B → A → St S B)
    (acc : B) : St S B :=
  match items with
  | [] => mret acc
  | x :: rest => acc' ← body acc x; fold_st rest body acc'
  end.

(** ** Substitutions *)

(** A substitution is an object with one capability: given the context,
    produce a text or raise.  It is handed the context itself, so resolving
    it may also write to the context. *)
Record Substitution := { perform : Exec string }.

Definition TextSubstitution (text : string) : Substitution :=
  {| perform := mret text |}.

Definition EnvironmentVariable (name : string) : Substitution :=
  {| perform := λ ctx,
       (match environment ctx !! name with
        | Some v => Ok v
        | None => Raise (SubstitutionResolutionError name)
        end, ctx) |}.

(** Modelled from the spec: [launch.utilities.perform_substitutions] is not
    part of this package; it resolves every substitution of the sequence
    against the context, in order, and concatenates the texts. *)
Definition perform_substitutions (subs : list Substitution) : Exec string :=
  fold_st subs (λ acc sub, text ← perform sub; mret (String.append acc text)) "".

(** ** Python primitives used by [execute] *)

(** [[]]: a new empty list object. *)
Definition new_list : Exec value := λ ctx,
  (Ok (VList (length (objects ctx))), set_objects (objects ctx ++ [[]]) ctx).

(** [context.launch_configurations.get(key, default)] *)
Definition dict_get (key : string) (default : value) : Exec value := λ ctx,
  (Ok (match launch_configurations ctx !! key with
       | Some v => v
       | None => default
       end), ctx).

(** [lst.append(x)]: mutates the list object in place; a text has no
    [append]. *)
Definition list_append (lst : value) (x : string) : Exec unit := λ ctx,
  match lst with
  | VList l => (Ok tt, set_objects (alter (λ xs, xs ++ [x]) l (objects ctx)) ctx)
  | VText _ => (Raise (AttributeError "append"), ctx)
  end.

(** [context.launch_configurations[key] = v] *)
Definition dict_setitem (key : string) (v : value) : Exec unit := λ ctx,
  (Ok tt, set_launch_configurations (<[key := v]> (launch_configurations ctx)) ctx).

(** ** The action *)

Record SetParametersFromFiles := {
  _input_files : list (list Substitution)
}.

(** [execute]: the list under [global_params], or a new empty list, gets
    every resolved filename appended in place and is then stored under the
    key. *)
Definition execute (self : SetParametersFromFiles) : Exec unit :=
  empty ← new_list;
  global_param_list ← dict_get "global_params" empty;
  for_each (_input_files self) (λ input_file,
    filename ← perform_substitutions input_file;
    list_append global_param_list filename);;
  dict_setitem "global_params" global_param_list.

(** The method as Python runs it, on the action object and the context:
    the state is the pair of them, [self._input_files] is read from the
    object, and everything else works on the context. *)
Abbreviation Method := (St (SetParametersFromFiles * LaunchContext)).

Definition in_context {A : Type} (m : Exec A) : Method A := λ '(self, ctx),
  let '(res, ctx') := m ctx in (res, (self, ctx')).

(** [self._input_files] *)
Definition self_input_files : Method (list (list Substitution)) :=
  λ '(self, ctx), (Ok (_input_files self), (self, ctx)).

Definition execute_method : Method unit :=
  empty ← in_context new_list;
  global_param_list ← in_context (dict_get "global_params" empty);
  input_files ← self_input_files;
  for_each input_files (λ input_file,
    filename ← in_context (perform_substitutions input_file);
    in_context (list_append global_param_list filename));;
  in_context (dict_setitem "global_params" global_param_list).

(** ** Construction *)

(** The Python values a caller can hand to the constructor. *)
#[local] Set Warnings "-register-all".
Inductive PyObj :=
| PyStr (s : string)
| PySub (sub : Substitution)
| PyInt (n : Z)
| PySeq (items : list PyObj).

(** Keyword arguments. *)
Abbreviation Kwargs := (gmap string PyObj).

(** A byte [10xxxxxx] continues the UTF-8 encoding of a character. *)
Definition is_continuation (c : Ascii.ascii) : bool :=
  match c with
  | Ascii.Ascii _ _ _ _ _ _ b6 b7 => b7 && negb b6
  end.

Definition starts_with_continuation (s : string) : bool :=
  match s with
  | String c _ => is_continuation c
  | EmptyString => false
  end.

(** The characters of a text, the text being held as its UTF-8 bytes: a byte
    starts a character, and the continuation bytes after it belong to that
    character. *)
Fixpoint code_points (s : string) : list string :=
  match s with
  | EmptyString => []
  | String c rest =>
      let chars := code_points rest in
      if starts_with_continuation rest then
        match chars with
        | ch :: chars' => String c ch :: chars'
        | [] => [String c EmptyString]
        end
      else String c EmptyString :: chars
  end.

Definition str_chars (s : string) : list PyObj := PyStr <$> code_points s.

(** [for x in obj]: the elements Python iterates over; a text yields its
    characters, a number or a substitution is not iterable. *)
Definition py_iter (obj : PyObj) : Result (list PyObj) :=
  match obj with
  | PySeq items => Ok items
  | PyStr s => Ok (str_chars s)
  | PySub _ => Raise (TypeError "object is not iterable")
  | PyInt _ => Raise (TypeError "object is not iterable")
  end.

(** Modelled from the spec: [launch.utilities.normalize_to_list_of_substitutions]
    is not part of this package.  An element of a sequence is kept when it is
    a substitution, wrapped as a literal text when it is raw text, and
    refused otherwise. *)
Definition normalize_item (x : PyObj) : Result Substitution :=
  match x with
  | PySub sub => Ok sub
  | PyStr s => Ok (TextSubstitution s)
  | _ => Raise InvalidSubstitutionInput
  end.

(** Modelled from the spec: [launch.utilities.normalize_to_list_of_substitutions]
    is not part of this package.  A single text or substitution gives a
    one-element sequence, a sequence is normalized element by element in
    order, anything else fails with [InvalidSubstitutionInput]. *)
Definition normalize_to_list_of_substitutions (subs : PyObj)
    : Result (list Substitution) :=
  match subs with
  | PyStr s => Ok [TextSubstitution s]
  | PySub sub => Ok [sub]
  | PySeq items =>
      for_in items (λ acc y, sub ← normalize_item y; Ok (acc ++ [sub])) []
  | PyInt _ => Raise InvalidSubstitutionInput
  end.

(** The collaborators of the declarative front-end, known by their methods. *)
Record Entity := { get_attr : string → Result string }.
Record Parser := { parse_substitution : string → Result (list Substitution) }.

Inductive ActionType :=
| Action_cls
| SetParametersFromFiles_cls.

(** The base class [launch.Action] is not part of this package: its
    initializer, which accepts or refuses the remaining keyword arguments,
    and its [parse], which returns the keyword arguments common to all
    actions. *)
Class ActionBase := {
  Action_init : Kwargs → Result unit;
  Action_parse : Entity → Parser → Result (ActionType * Kwargs)
}.

Section Action.
Context `{ActionBase}.

(** [__init__]: the base class takes the keyword arguments, then every
    element of [filenames] is normalized and appended to [_input_files]. *)
Definition __init__ (filenames : PyObj) (kwargs : Kwargs)
    : Result SetParametersFromFiles :=
  _ ← Action_init kwargs;
  items ← py_iter filenames;
  input_files ← for_in items (λ input_files filename,
    subs ← normalize_to_list_of_substitutions filename;
    Ok (input_files ++ [subs])) [];
  Ok {| _input_files := input_files |}.

(** [parse]: the keyword arguments of the base class, to which the parsed
    attribute [filename] is added under the keyword [filename]. *)
Definition parse (entity : Entity) (parser : Parser)
    : Result (ActionType * Kwargs) :=
  '(_, kwargs) ← Action_parse entity parser;
  attr ← get_attr entity "filename";
  subs ← parse_substitution parser attr;
  Ok (SetParametersFromFiles_cls,
      <["filename" := PySeq (PySub <$> subs)]> kwargs).

(** The class called with keyword arguments: Python binds the required
    parameter [filenames] from them and passes the others on to
    [__init__] as its [kwargs]; without a [filenames] keyword the call
    raises [TypeError] before the body of [__init__] runs. *)
Definition SetParametersFromFiles_call (kwargs : Kwargs)
    : Result SetParametersFromFiles :=
  match kwargs !! "filenames" with
  | Some filenames => __init__ filenames (delete "filenames" kwargs)
  | None =>
      Raise (TypeError "__init__() missing 1 required positional argument: 'filenames'")
  end.

(** What the front-end does with the pair returned by a [parse] method:
    it calls the class with the keyword arguments. *)
Definition instantiate_action (entity : Entity) (parser : Parser)
    : Result SetParametersFromFiles :=
  '(action_type, kwargs) ← parse entity parser;
  match action_type with
  | SetParametersFromFiles_cls => SetParametersFromFiles_call kwargs
  | Action_cls => Raise (TypeError "not a SetParametersFromFiles")
  end.
End Action.

(** ** Notions used to state the properties *)

(** The value a reader of the context gets for [global_params]: the contents
    of the list bound to the key, the empty list when the key is absent. *)
Definition global_params_of (ctx : LaunchContext) : list string :=
  match launch_configurations ctx !! "global_params" with
  | Some (VList l) => default [] (objects ctx !! l)
  | _ => []
  end.

(** The key is absent or bound to an existing list object. *)
Definition global_params_is_list (ctx : LaunchContext) : bool :=
  match launch_configurations ctx !! "global_params" with
  | None => true
  | Some (VList l) => bool_decide (l < length (objects ctx))
  | Some (VText _) => false
  end.

(** The text a stored sequence resolves to in a given context. *)
Definition resolve (ctx : LaunchContext) (subs : list Substitution)
    : Result string :=
  (perform_substitutions subs ctx).1.

(** Resolving the sequence in the context gives [res] and leaves the context
    as it was. *)
Definition resolves_to (ctx : LaunchContext) (subs : list Substitution)
    (res : Result string) : Prop :=
  perform_substitutions subs ctx = (res, ctx).

(** A substitution that never writes to the context, as the literal texts
    and the environment lookups. *)
Definition writes_nothing (sub : Substitution) : Prop :=
  ∀ ctx, (perform sub ctx).2 = ctx.

(** The list object [execute] appends to: the one bound to the key, or the
    new one when the key is absent. *)
Definition target_list (ctx : LaunchContext) : loc :=
  match launch_configurations ctx !! "global_params" with
  | Some (VList l) => l
  | _ => length (objects ctx)
  end.

(** The context as a substitution sees it while [execute] runs, once the
    texts [done] have been appended. *)
Definition at_loop (ctx : LaunchContext) (done : list string) : LaunchContext :=
  set_objects
    (alter (λ xs, xs ++ done) (target_list ctx) (objects ctx ++ [[]])) ctx.

(** The stored sequences resolve to [rs], each one in the context that
    [execute] has reached when its turn comes and without writing to it. *)
Definition resolved_in_turn (ctx : LaunchContext)
    (files : list (list Substitution)) (rs : list string) : Prop :=
  length rs = length files ∧
  ∀ i subs, files !! i = Some subs →
    ∃ r, rs !! i = Some r ∧ resolves_to (at_loop ctx (take i rs)) subs (Ok r).

(** A substitution whose result does not depend on the contents of the list
    objects, as the literal texts and the environment lookups. *)
Definition reads_no_list_object (sub : Substitution) : Prop :=
  ∀ objs ctx, (perform sub (set_objects objs ctx)).1 = (perform sub ctx).1.

(** The inputs the normalizer accepts: a text, a substitution, or a sequence
    of texts and substitutions. *)
Definition is_text_or_substitution (x : PyObj) : bool :=
  match x with
  | PyStr _ | PySub _ => true
  | _ => false
  end.

Definition valid_substitutions_input (x : PyObj) : bool :=
  match x with
  | PySeq items => forallb is_text_or_substitution items
  | _ => is_text_or_substitution x
  end.

(** The substitution a text or substitution stands for. *)
Definition as_substitution (x : PyObj) : option Substitution :=
  match x with
  | PyStr s => Some (TextSubstitution s)
  | PySub sub => Some sub
  | _ => None
  end.

(** ** The loops, step by step *)

(** The body of the loop of [execute]. *)
Definition append_resolved (lst : value) (input_file : list Substitution)
    : Exec unit :=
  filename ← perform_substitutions input_file;
  list_append lst filename.

(** The context reached when [done] has been appended to the list [l]. *)
Definition appended (l : loc) (done : list string) (c : LaunchContext)
    : LaunchContext :=
  set_objects (alter (λ xs, xs ++ done) l (objects c)) c.

(** The value of the local variable [global_param_list]. *)
Definition list_handle (ctx : LaunchContext) : value :=
  match launch_configurations ctx !! "global_params" with
  | Some v => v
  | None => VList (length (objects ctx))
  end.

(** The body of a loop that appends the result of [f] on each element. *)
Definition collect_step {A B : Type} (f : A → Result B)
    (acc : list B) (x : A) : Result (list B) :=
  y ← f x; Ok (acc ++ [y]).

(** ** Example collaborators and contexts *)

(** A base class for the examples: the initializer refuses every keyword but
    [condition], and [parse] finds no common keyword in the entity. *)
Definition plain_action : ActionBase :=
  {| Action_init := λ kwargs,
       if bool_decide (dom kwargs ⊆ ({["condition"]} : gset string))
       then Ok tt
       else Raise (TypeError "__init__() got an unexpected keyword argument");
     Action_parse := λ _ _, Ok (Action_cls, ∅) |}.

(** An entity whose only attribute is [filename="a.yaml"]. *)
Definition filename_entity : Entity :=
  {| get_attr := λ name,
       if bool_decide (name = "filename") then Ok "a.yaml"
       else Raise (AttributeError name) |}.

(** A parser that reads every text as a literal. *)
Definition literal_parser : Parser :=
  {| parse_substitution := λ text, Ok [TextSubstitution text] |}.

Definition empty_context : LaunchContext :=
  {| launch_configurations := ∅; objects := []; environment := ∅;
     opened_files := [] |}.

(** A context in which an earlier action has declared [a.yaml]. *)
Definition context_with_params : LaunchContext :=
  {| launch_configurations := {["global_params" := VList 0]};
     objects := [["a.yaml"]];
     environment := {["PARAMS" := "/etc/p.yaml"]};
     opened_files := [] |}.

Definition no_files : SetParametersFromFiles := {| _input_files := [] |}.

Definition b_then_a : SetParametersFromFiles :=
  {| _input_files := [[TextSubstitution "b.yaml"]; [TextSubstitution "a.yaml"]] |}.

(** The second file depends on a variable that is not set. *)
(** A literal filename, then one made of a variable of the environment. *)
Definition b_then_env : SetParametersFromFiles :=
  {| _input_files := [[TextSubstitution "b.yaml"];
                      [EnvironmentVariable "PARAMS"]] |}.

Definition env_then_unset : SetParametersFromFiles :=
  {| _input_files := [[EnvironmentVariable "PARAMS"];
                      [EnvironmentVariable "UNSET"];
                      [TextSubstitution "c.yaml"]] |}.

(** ** Further notions and examples *)

(** The value a reader of the context gets for a key bound to a list, as
    [global_params_of] for [global_params]. *)
Definition list_under (ctx : LaunchContext) (key : string) : list string :=
  match launch_configurations ctx !! key with
  | Some (VList l) => default [] (objects ctx !! l)
  | _ => []
  end.

(** One character in UTF-8: a byte that is not a continuation, followed by
    continuation bytes only. *)
Definition is_character (ch : string) : bool :=
  match ch with
  | String c k =>
      negb (is_continuation c) &&
      forallb is_continuation (String.list_ascii_of_string k)
  | EmptyString => false
  end.

(** A context in which a second key is bound to the very list object that
    [global_params] is bound to. *)
Definition context_with_alias : LaunchContext :=
  {| launch_configurations :=
       <["saved_params" := VList 0]> {["global_params" := VList 0]};
     objects := [["a.yaml"]];
     environment := {["PARAMS" := "/etc/p.yaml"]};
     opened_files := [] |}.

(** A context in which [global_params] is bound to a text. *)
Definition context_with_text : LaunchContext :=
  {| launch_configurations := {["global_params" := VText "a.yaml"]};
     objects := [];
     environment := ∅;
     opened_files := [] |}.

(** A context with other keys beside [global_params]: a text, and a list of
    its own. *)
Definition context_with_other_keys : LaunchContext :=
  {| launch_configurations :=
       <["use_sim_time" := VText "true"]>
         (<["remappings" := VList 1]> {["global_params" := VList 0]});
     objects := [["a.yaml"]; ["chatter:=talk"]];
     environment := {["PARAMS" := "/etc/p.yaml"]};
     opened_files := ["/etc/launch.yaml"] |}.

(** A substitution that writes to the context while it resolves, in the
    manner of the substitutions of [launch] that keep what they generate
    under a key of the configurations: it binds [key] and resolves to
    [text]. *)
Definition RecordingSubstitution (key noted text : string) : Substitution :=
  {| perform := λ ctx,
       (Ok text,
        set_launch_configurations
          (<[key := VText noted]> (launch_configurations ctx)) ctx) |}.

Definition recording_action : SetParametersFromFiles :=
  {| _input_files := [[RecordingSubstitution "anon" "node_1" "a.yaml"]] |}.

(** An entity without attributes. *)
Definition bare_entity : Entity :=
  {| get_attr := λ name, Raise (AttributeError name) |}.

(** A base class whose [parse] has found a condition in the entity. *)
Definition conditional_action : ActionBase :=
  {| Action_init := Action_init (ActionBase := plain_action);
     Action_parse := λ _ _, Ok (Action_cls, {["condition" := PyStr "true"]}) |}.

(** * Properties *)

(** ** The loop of [execute] *)

Lemma set_objects_id c : set_objects (objects c) c = c.
Proof. by destruct c. Qed.

Lemma appended_nil l c : appended l [] c = c.
Proof.
  unfold appended. rewrite list_alter_id; [apply set_objects_id |].
  intros xs. apply app_nil_r.
Qed.

Lemma appended_cons l r done c :
  appended l (r :: done) c = appended l done (appended l [r] c).
Proof.
  unfold appended, set_objects; simpl. f_equal.
  rewrite list_alter_alter_eq. apply list_alter_ext; [| done].
  intros xs _. simpl. by rewrite <- app_assoc.
Qed.

Lemma resolves_to_resolve c subs res :
  resolves_to c subs res → resolve c subs = res.
Proof. unfold resolves_to, resolve. by intros ->. Qed.

Lemma append_resolved_ok l subs r c :
  resolves_to c subs (Ok r) →
  append_resolved (VList l) subs c = (Ok tt, appended l [r] c).
Proof.
  intros Hr. unfold append_resolved, mbind, St_bind. by rewrite Hr.
Qed.

Lemma append_resolved_raise lst subs e c :
  resolves_to c subs (Raise e) →
  append_resolved lst subs c = (Raise e, c).
Proof.
  intros Hr. unfold append_resolved, mbind, St_bind. by rewrite Hr.
Qed.

(** A sequence of substitutions that write nothing resolves without
    writing. *)
Lemma fold_st_writes_nothing (subs : list Substitution) : ∀ acc c,
  Forall writes_nothing subs →
  (fold_st subs
     (λ acc sub, text ← perform sub; mret (String.append acc text)) acc c).2 = c.
Proof.
  induction subs as [| sub subs IH]; intros acc c Hsubs; [done |].
  apply Forall_cons in Hsubs as [Hsub Hsubs]. specialize (Hsub c).
  simpl. unfold mbind, St_bind.
  destruct (perform sub c) as [[text | e] c']; simpl in Hsub; subst c';
    [by apply IH | done].
Qed.

Lemma pure_resolves c subs :
  Forall writes_nothing subs → resolves_to c subs (resolve c subs).
Proof.
  intros Hsubs. unfold resolves_to, resolve.
  pose proof (fold_st_writes_nothing subs "" c Hsubs) as Hc.
  unfold perform_substitutions.
  by destruct (fold_st _ _ _ _) as [res c']; simpl in *; subst.
Qed.

Lemma for_each_cons {S A} (x : A) rest (body : A → St S unit) c :
  for_each (x :: rest) body c =
  match body x c with
  | (Ok _, c') => for_each rest body c'
  | (Raise e, c') => (Raise e, c')
  end.
Proof. done. Qed.

Lemma for_each_app {S A} (xs ys : list A) (body : A → St S unit) c :
  for_each (xs ++ ys) body c =
  match for_each xs body c with
  | (Ok _, c') => for_each ys body c'
  | (Raise e, c') => (Raise e, c')
  end.
Proof.
  revert c. induction xs as [| x xs IH]; intros c; [done |].
  simpl. unfold mbind, St_bind.
  destruct (body x c) as [[[] | e] c']; [apply IH | done].
Qed.

(** Every sequence resolves in its turn: the loop completes and has appended
    the texts in order. *)
Lemma loop_completes l files : ∀ rs c,
  length rs = length files →
  (∀ i subs, files !! i = Some subs →
    ∃ r, rs !! i = Some r ∧ resolves_to (appended l (take i rs) c) subs (Ok r)) →
  for_each files (append_resolved (VList l)) c = (Ok tt, appended l rs c).
Proof.
  induction files as [| subs files IH]; intros rs c Hlen Hres.
  - destruct rs; [| done]. by rewrite appended_nil.
  - destruct rs as [| r rs]; [done |].
    destruct (Hres 0 subs eq_refl) as (r' & Hr' & Hsubs).
    simpl in Hr'. injection Hr' as <-.
    simpl in Hsubs. rewrite appended_nil in Hsubs.
    simpl. unfold mbind at 1, St_bind at 1.
    rewrite (append_resolved_ok _ _ _ _ Hsubs), (appended_cons l r rs c).
    apply IH; [by injection Hlen |].
    intros i subs' Hi. destruct (Hres (S i) subs' Hi) as (r' & Hr' & Hs').
    exists r'. split; [done |]. simpl in Hs'.
    by rewrite (appended_cons l r (take i rs) c) in Hs'.
Qed.

(** ** [execute] as one step around its loop *)

Lemma execute_unfold self ctx :
  execute self ctx =
  match for_each (_input_files self) (append_resolved (list_handle ctx))
          (set_objects (objects ctx ++ [[]]) ctx) with
  | (Ok _, c) =>
      (Ok tt,
       set_launch_configurations
         (<["global_params" := list_handle ctx]> (launch_configurations c)) c)
  | (Raise e, c) => (Raise e, c)
  end.
Proof.
  unfold execute, mbind, St_bind, list_handle; simpl.
  by destruct (for_each _ _ _) as [[[] | e] c].
Qed.

Lemma list_handle_target ctx :
  global_params_is_list ctx = true →
  list_handle ctx = VList (target_list ctx).
Proof.
  unfold global_params_is_list, list_handle, target_list.
  by destruct (launch_configurations ctx !! "global_params") as [[s | l] |].
Qed.

Lemma target_list_bound ctx :
  global_params_is_list ctx = true →
  (target_list ctx ≤ length (objects ctx))%nat.
Proof.
  unfold global_params_is_list, target_list.
  destruct (launch_configurations ctx !! "global_params") as [[s | l] |];
    [done | | done].
  intros Hl%bool_decide_eq_true. lia.
Qed.

(** The contents of the target list before the call are what a reader gets
    for the key. *)
Lemma target_list_contents ctx :
  global_params_is_list ctx = true →
  (objects ctx ++ [[]]) !! target_list ctx = Some (global_params_of ctx).
Proof.
  unfold global_params_is_list, target_list, global_params_of.
  destruct (launch_configurations ctx !! "global_params") as [[s | l] |];
    [done | |].
  - intros Hl%bool_decide_eq_true.
    rewrite lookup_app_l by done.
    destruct (lookup_lt_is_Some_2 _ _ Hl) as [xs Hxs]. by rewrite Hxs.
  - intros _. by apply list_lookup_middle.
Qed.

Lemma execute_completes self ctx rs :
  global_params_is_list ctx = true →
  resolved_in_turn ctx (_input_files self) rs →
  execute self ctx =
  (Ok tt,
   set_launch_configurations
     (<["global_params" := VList (target_list ctx)]> (launch_configurations ctx))
     (at_loop ctx rs)).
Proof.
  intros Hwf [Hlen Hres]. rewrite execute_unfold, (list_handle_target _ Hwf).
  by rewrite (loop_completes (target_list ctx) _ rs
                (set_objects (objects ctx ++ [[]]) ctx) Hlen Hres).
Qed.

Lemma global_params_of_completed ctx rs :
  global_params_is_list ctx = true →
  global_params_of
    (set_launch_configurations
       (<["global_params" := VList (target_list ctx)]> (launch_configurations ctx))
       (at_loop ctx rs)) =
  global_params_of ctx ++ rs.
Proof.
  intros Hwf. unfold global_params_of at 1; simpl.
  rewrite lookup_insert_eq, list_lookup_alter_eq.
  by rewrite (target_list_contents _ Hwf).
Qed.

Lemma execute_raises self ctx pre subs post rs e :
  global_params_is_list ctx = true →
  _input_files self = pre ++ subs :: post →
  resolved_in_turn ctx pre rs →
  resolves_to (at_loop ctx rs) subs (Raise e) →
  execute self ctx = (Raise e, at_loop ctx rs).
Proof.
  intros Hwf Hfiles [Hlen Hres] Hsubs.
  rewrite execute_unfold, (list_handle_target _ Hwf), Hfiles, for_each_app.
  rewrite (loop_completes (target_list ctx) _ rs
             (set_objects (objects ctx ++ [[]]) ctx) Hlen Hres). simpl.
  unfold mbind at 1, St_bind at 1.
  by rewrite (append_resolved_raise _ _ e _ Hsubs).
Qed.

(** ** Loops that collect *)

Section Collect.
Context {A B : Type} (f : A → Result B).

Lemma for_in_collect_cons x items acc :
  for_in (x :: items) (collect_step f) acc =
  match f x with
  | Ok y => for_in items (collect_step f) (acc ++ [y])
  | Raise e => Raise e
  end.
Proof.
  change (for_in (x :: items) (collect_step f) acc)
    with (collect_step f acc x ≫= for_in items (collect_step f)).
  unfold mbind, Result_bind, collect_step at 1, mbind, Result_bind.
  by destruct (f x).
Qed.

Lemma for_in_collect_ok items ys : ∀ acc,
  Forall2 (λ x y, f x = Ok y) items ys →
  for_in items (collect_step f) acc = Ok (acc ++ ys).
Proof.
  intros acc Hall. revert acc.
  induction Hall as [| x y items ys Hx _ IH]; intros acc.
  - simpl. by rewrite app_nil_r.
  - by rewrite for_in_collect_cons, Hx, IH, <- app_assoc.
Qed.

Lemma for_in_collect_inv items : ∀ acc res,
  for_in items (collect_step f) acc = Ok res →
  ∃ ys, res = acc ++ ys ∧ Forall2 (λ x y, f x = Ok y) items ys.
Proof.
  induction items as [| x items IH]; intros acc res.
  - intros [= <-]. exists []. by rewrite app_nil_r.
  - rewrite for_in_collect_cons.
    destruct (f x) as [y | e] eqn:Hx; [| done].
    intros (ys & -> & Hys)%IH. exists (y :: ys).
    split; [by rewrite <- app_assoc | by constructor].
Qed.

Lemma for_in_collect_raise items e : ∀ acc,
  (∀ x e', f x = Raise e' → e' = e) →
  Exists (λ x, ∃ e', f x = Raise e') items →
  for_in items (collect_step f) acc = Raise e.
Proof.
  intros acc Honly Hex. revert acc.
  induction Hex as [x items [e' Hx] | x items _ IH]; intros acc;
    rewrite for_in_collect_cons.
  - by rewrite Hx, (Honly _ _ Hx).
  - destruct (f x) as [y | e'] eqn:Hx; [apply IH |].
    by rewrite (Honly _ _ Hx).
Qed.
End Collect.

(** ** The normalizer *)

Lemma normalize_item_as_substitution x :
  normalize_item x =
  match as_substitution x with
  | Some sub => Ok sub
  | None => Raise InvalidSubstitutionInput
  end.
Proof. by destruct x. Qed.

Lemma normalize_sequence items :
  normalize_to_list_of_substitutions (PySeq items) =
  match mapM as_substitution items with
  | Some subs => Ok subs
  | None => Raise InvalidSubstitutionInput
  end.
Proof.
  simpl. change (for_in items (collect_step normalize_item) [] =
    match mapM as_substitution items with
    | Some subs => Ok subs
    | None => Raise InvalidSubstitutionInput
    end).
  destruct (mapM as_substitution items) as [subs |] eqn:Hm.
  - apply mapM_Some in Hm.
    apply (for_in_collect_ok normalize_item items subs []).
    eapply Forall2_impl; [exact Hm |].
    intros x sub Hx. by rewrite normalize_item_as_substitution, Hx.
  - apply for_in_collect_raise.
    + intros x e. rewrite normalize_item_as_substitution.
      destruct (as_substitution x); [done | by intros [= <-]].
    + apply mapM_None in Hm. apply Exists_exists in Hm as (x & Hin & Hx).
      apply Exists_exists. exists x. split; [done |].
      exists InvalidSubstitutionInput.
      by rewrite normalize_item_as_substitution, Hx.
Qed.

Lemma normalize_only_invalid_input x e :
  normalize_to_list_of_substitutions x = Raise e → e = InvalidSubstitutionInput.
Proof.
  destruct x as [s | sub | n | items]; [done | done | by intros [= <-] |].
  rewrite normalize_sequence.
  destruct (mapM as_substitution items); [done | by intros [= <-]].
Qed.

Lemma normalize_valid x :
  valid_substitutions_input x = true ↔
  ∃ subs, normalize_to_list_of_substitutions x = Ok subs.
Proof.
  destruct x as [s | sub | n | items]; simpl valid_substitutions_input.
  - split; [by eexists | done].
  - split; [by eexists | done].
  - split; [done | by intros [subs Hs]].
  - rewrite normalize_sequence. split.
    + intros Hall.
      destruct (mapM as_substitution items) as [subs |] eqn:Hm; [by eexists |].
      apply mapM_None, Exists_exists in Hm as (x & Hin & Hx).
      rewrite forallb_forall in Hall. apply list_elem_of_In, Hall in Hin.
      by destruct x.
    + intros [subs Hs].
      destruct (mapM as_substitution items) as [subs' |] eqn:Hm; [| done].
      apply mapM_Some in Hm. apply forallb_forall. intros x Hin.
      apply list_elem_of_In, list_elem_of_lookup in Hin as [i Hi].
      destruct (Forall2_lookup_l _ _ _ _ _ Hm Hi) as (sub & _ & Hx).
      by destruct x.
Qed.

(** ** The constructor *)

Section Constructor.
Context `{ActionBase}.

Lemma init_sequence items kwargs :
  Action_init kwargs = Ok tt →
  __init__ (PySeq items) kwargs =
  match for_in items (collect_step normalize_to_list_of_substitutions) [] with
  | Ok input_files => Ok {| _input_files := input_files |}
  | Raise e => Raise e
  end.
Proof.
  intros Hbase. unfold __init__, mbind, Result_bind. rewrite Hbase. simpl.
  change (λ (input_files : list (list Substitution)) (filename : PyObj),
            match normalize_to_list_of_substitutions filename with
            | Ok a => Ok (input_files ++ [a])
            | Raise e => Raise e
            end)
    with (collect_step normalize_to_list_of_substitutions).
  by destruct (for_in _ _ _).
Qed.

Lemma init_base_accepts filenames kwargs self :
  __init__ filenames kwargs = Ok self → Action_init kwargs = Ok tt.
Proof.
  unfold __init__, mbind, Result_bind.
  by destruct (Action_init kwargs) as [[] | e].
Qed.

(** The stored sequences are the normalized inputs, one for one and in
    input order. *)
Lemma init_stores_normalized items kwargs self :
  __init__ (PySeq items) kwargs = Ok self →
  Forall2 (λ f subs, normalize_to_list_of_substitutions f = Ok subs)
    items (_input_files self).
Proof.
  intros Hinit. pose proof (init_base_accepts _ _ _ Hinit) as Hbase.
  rewrite (init_sequence _ _ Hbase) in Hinit.
  destruct (for_in _ _ _) as [fs | e] eqn:Hloop; [| done].
  injection Hinit as <-.
  by apply for_in_collect_inv in Hloop as (ys & -> & Hys).
Qed.

Lemma init_length items kwargs self :
  __init__ (PySeq items) kwargs = Ok self →
  length (_input_files self) = length items.
Proof.
  intros Hinit%init_stores_normalized. symmetry.
  by eapply Forall2_length.
Qed.

Lemma init_no_filenames kwargs self :
  __init__ (PySeq []) kwargs = Ok self → _input_files self = [].
Proof. intros Hinit%init_length. by destruct (_input_files self). Qed.

Lemma init_one_text s kwargs self :
  __init__ (PySeq [PyStr s]) kwargs = Ok self →
  _input_files self = [[TextSubstitution s]].
Proof.
  intros Hinit%init_stores_normalized.
  inversion Hinit as [| ? subs ? rest Hs Hrest Heq1 Heq2]; subst.
  inversion Hrest; subst. by injection Hs as <-.
Qed.
End Constructor.

(** ** What [execute] leaves alone *)

Lemma append_resolved_pure lst subs c :
  Forall writes_nothing subs →
  append_resolved lst subs c =
  match resolve c subs with
  | Ok filename => list_append lst filename c
  | Raise e => (Raise e, c)
  end.
Proof.
  intros Hsubs. unfold append_resolved, mbind, St_bind.
  by rewrite (pure_resolves c subs Hsubs).
Qed.

Lemma append_resolved_frame lst subs c :
  Forall writes_nothing subs →
  let c' := (append_resolved lst subs c).2 in
  launch_configurations c' = launch_configurations c ∧
  environment c' = environment c ∧
  opened_files c' = opened_files c ∧
  length (objects c') = length (objects c) ∧
  ∀ l, lst ≠ VList l → objects c' !! l = objects c !! l.
Proof.
  intros Hsubs. rewrite (append_resolved_pure lst subs c Hsubs).
  destruct (resolve c subs) as [r | e]; [| by split_and!].
  destruct lst as [s | l0]; [by split_and! |]. simpl.
  split_and!; [done | done | done | by rewrite length_alter |].
  intros l Hl. apply list_lookup_alter_ne. congruence.
Qed.

Lemma for_each_frame lst files : ∀ c,
  Forall (Forall writes_nothing) files →
  let c' := (for_each files (append_resolved lst) c).2 in
  launch_configurations c' = launch_configurations c ∧
  environment c' = environment c ∧
  opened_files c' = opened_files c ∧
  length (objects c') = length (objects c) ∧
  ∀ l, lst ≠ VList l → objects c' !! l = objects c !! l.
Proof.
  induction files as [| subs files IH]; intros c Hfiles; [by split_and! |].
  apply Forall_cons in Hfiles as [Hsubs Hfiles].
  rewrite for_each_cons.
  pose proof (append_resolved_frame lst subs c Hsubs) as Hstep.
  destruct (append_resolved lst subs c) as [[[] | e] c1]; simpl in Hstep.
  - specialize (IH c1 Hfiles). simpl in IH.
    destruct Hstep as (Hc & He & Hf & Hlen & Ho),
             IH as (Hc' & He' & Hf' & Hlen' & Ho').
    split_and!; [congruence | congruence | congruence | congruence |].
    intros l Hl. by rewrite Ho', Ho.
  - exact Hstep.
Qed.

(** The context [execute] reaches, whatever its outcome, when the stored
    substitutions write nothing: the configuration bindings other than
    [global_params], the ambient data, the files opened and the objects
    other than the list bound to the key are those of the context it
    started from. *)
Lemma execute_frame self ctx :
  Forall (Forall writes_nothing) (_input_files self) →
  let ctx' := (execute self ctx).2 in
  (∀ k, k ≠ "global_params" →
     launch_configurations ctx' !! k = launch_configurations ctx !! k) ∧
  environment ctx' = environment ctx ∧
  opened_files ctx' = opened_files ctx ∧
  (∀ l xs, objects ctx !! l = Some xs →
     launch_configurations ctx !! "global_params" ≠ Some (VList l) →
     objects ctx' !! l = Some xs).
Proof.
  intros Hpure. rewrite execute_unfold.
  pose proof (for_each_frame (list_handle ctx) (_input_files self)
                (set_objects (objects ctx ++ [[]]) ctx) Hpure) as Hloop.
  simpl in Hloop. destruct Hloop as (Hc & He & Hf & _ & Ho).
  assert (∀ l xs, objects ctx !! l = Some xs →
            launch_configurations ctx !! "global_params" ≠ Some (VList l) →
            list_handle ctx ≠ VList l) as Hother.
  { intros l xs Hl Hne. unfold list_handle.
    destruct (launch_configurations ctx !! "global_params") as [v |];
      [congruence |].
    intros [= <-]. apply lookup_lt_Some in Hl. lia. }
  destruct (for_each _ _ _) as [[[] | e] c1]; simpl in *.
  - split_and!; [| done | done |].
    + intros k Hk. by rewrite lookup_insert_ne, Hc.
    + intros l xs Hl Hne. rewrite (Ho l (Hother _ _ Hl Hne)).
      by apply lookup_app_l_Some.
  - split_and!; [by intros; rewrite Hc | done | done |].
    intros l xs Hl Hne. rewrite (Ho l (Hother _ _ Hl Hne)).
    by apply lookup_app_l_Some.
Qed.

(** ** The method on the action object *)

Lemma st_bind_eq {S A B} (m : St S A) (f : A → St S B) st :
  (m ≫= f) st =
  match m st with
  | (Ok a, st') => f a st'
  | (Raise e, st') => (Raise e, st')
  end.
Proof. done. Qed.

Lemma for_each_in_context lst files : ∀ self c,
  for_each files (λ input_file,
    filename ← in_context (perform_substitutions input_file);
    in_context (list_append lst filename)) (self, c) =
  ((for_each files (append_resolved lst) c).1,
   (self, (for_each files (append_resolved lst) c).2)).
Proof.
  induction files as [| subs files IH]; intros self c; [done |].
  rewrite !for_each_cons.
  unfold append_resolved at 1 3, in_context, mbind, St_bind.
  destruct (perform_substitutions subs c) as [[filename | e] c1]; [| done].
  destruct (list_append lst filename c1) as [[[] | e] c2]; [apply IH | done].
Qed.

(** The method reads the action and runs [execute] on the context. *)
Lemma execute_method_execute self ctx :
  execute_method (self, ctx) = ((execute self ctx).1, (self, (execute self ctx).2)).
Proof.
  rewrite execute_unfold. unfold execute_method.
  rewrite st_bind_eq. cbn [in_context new_list].
  rewrite st_bind_eq. cbn [in_context dict_get].
  rewrite st_bind_eq. cbn [self_input_files].
  rewrite st_bind_eq, for_each_in_context. fold (list_handle ctx).
  by destruct (for_each _ _ _) as [[[] | e] c].
Qed.

(** ** Facts about the context reached *)

Lemma at_loop_target ctx rs :
  global_params_is_list ctx = true →
  objects (at_loop ctx rs) !! target_list ctx = Some (global_params_of ctx ++ rs).
Proof.
  intros Hwf. unfold at_loop; simpl.
  by rewrite list_lookup_alter_eq, (target_list_contents _ Hwf).
Qed.

Lemma at_loop_keeps_objects ctx rs l xs :
  objects ctx !! l = Some xs →
  launch_configurations ctx !! "global_params" ≠ Some (VList l) →
  objects (at_loop ctx rs) !! l = Some xs.
Proof.
  intros Hl Hne. unfold at_loop; simpl.
  rewrite list_lookup_alter_ne; [by apply lookup_app_l_Some |].
  unfold target_list.
  destruct (launch_configurations ctx !! "global_params") as [[s | l0] |];
    [| congruence |]; apply lookup_lt_Some in Hl; lia.
Qed.

Lemma completed_is_list ctx rs :
  global_params_is_list ctx = true →
  global_params_is_list
    (set_launch_configurations
       (<["global_params" := VList (target_list ctx)]> (launch_configurations ctx))
       (at_loop ctx rs)) = true.
Proof.
  intros Hwf. unfold global_params_is_list; simpl.
  rewrite lookup_insert_eq. apply bool_decide_eq_true.
  rewrite length_alter, length_app; simpl.
  pose proof (target_list_bound _ Hwf). lia.
Qed.

Lemma texts_resolved_in_turn ctx (texts : list string) :
  resolved_in_turn ctx ((λ s, [TextSubstitution s]) <$> texts) texts.
Proof.
  split; [by rewrite length_fmap |].
  intros i subs Hi. apply list_lookup_fmap_Some in Hi as (s & -> & Hs).
  by exists s.
Qed.

Lemma text_writes_nothing s : writes_nothing (TextSubstitution s).
Proof. done. Qed.

Lemma environment_writes_nothing name :
  writes_nothing (EnvironmentVariable name).
Proof. done. Qed.

Lemma text_reads_no_list_object s : reads_no_list_object (TextSubstitution s).
Proof. done. Qed.

Lemma environment_reads_no_list_object name :
  reads_no_list_object (EnvironmentVariable name).
Proof. done. Qed.

Lemma resolve_set_objects subs objs ctx :
  Forall writes_nothing subs →
  Forall reads_no_list_object subs →
  resolve (set_objects objs ctx) subs = resolve ctx subs.
Proof.
  intros Hpure Hsubs. unfold resolve, perform_substitutions.
  generalize "". revert Hpure.
  induction Hsubs as [| sub subs Hsub _ IH]; intros Hpure acc; [done |].
  apply Forall_cons in Hpure as [Hw Hpure].
  pose proof (Hw ctx) as Hctx. pose proof (Hw (set_objects objs ctx)) as Hctx'.
  specialize (Hsub objs ctx). simpl. unfold mbind, St_bind.
  destruct (perform sub ctx) as [res c], (perform sub (set_objects objs ctx))
    as [res' c']; simpl in *; subst.
  destruct res as [text | e]; [by apply IH | done].
Qed.

(** For sequences that write nothing and do not look into the list objects,
    resolving in turn is resolving against the context the call started
    from. *)
Lemma resolved_against_context ctx files rs :
  Forall (Forall writes_nothing) files →
  Forall (Forall reads_no_list_object) files →
  Forall2 (λ subs r, resolve ctx subs = Ok r) files rs →
  resolved_in_turn ctx files rs.
Proof.
  intros Hpure Hfiles Hres. split; [symmetry; by eapply Forall2_length |].
  intros i subs Hi.
  destruct (Forall2_lookup_l _ _ _ _ _ Hres Hi) as (r & Hr & Hsubs).
  exists r. split; [done |]. unfold at_loop.
  pose proof (Forall_lookup_1 _ _ _ _ Hpure Hi) as Hw.
  pose proof (Forall_lookup_1 _ _ _ _ Hfiles Hi) as Hn.
  match goal with
  | |- resolves_to ?c _ _ => pose proof (pure_resolves c subs Hw) as Hp
  end.
  by rewrite (resolve_set_objects subs _ ctx Hw Hn), Hsubs in Hp.
Qed.

Lemma execute_no_files self ctx :
  _input_files self = [] →
  execute self ctx =
  (Ok tt,
   set_launch_configurations
     (<["global_params" := list_handle ctx]> (launch_configurations ctx))
     (set_objects (objects ctx ++ [[]]) ctx)).
Proof. intros Hfiles. by rewrite execute_unfold, Hfiles. Qed.

Lemma global_params_of_no_files ctx :
  global_params_of
    (set_launch_configurations
       (<["global_params" := list_handle ctx]> (launch_configurations ctx))
       (set_objects (objects ctx ++ [[]]) ctx)) =
  global_params_of ctx.
Proof.
  unfold global_params_of, list_handle; simpl. rewrite lookup_insert_eq.
  destruct (launch_configurations ctx !! "global_params") as [[s | l] |];
    [done | |].
  - destruct (objects ctx !! l) as [xs |] eqn:Hl.
    + by rewrite (lookup_app_l_Some _ _ _ _ Hl).
    + apply lookup_ge_None in Hl.
      destruct (decide (l = length (objects ctx))) as [-> | Hne].
      * by rewrite list_lookup_middle.
      * rewrite (proj2 (lookup_ge_None _ _)); [done |].
        rewrite length_app; simpl. lia.
  - by rewrite list_lookup_middle.
Qed.

(** * The claims *)

(** C1: an action constructed from the filenames [f1, ..., fn] and executed
    once on a context in which [global_params] is absent or a list completes
    and leaves under [global_params] the value read before the call (the
    empty list when the key was absent) followed by the texts [r1, ..., rn]
    the stored sequences resolve to, one per filename, in declaration order;
    nothing is sorted or dropped.  Each sequence is resolved in the context
    reached at its turn, and resolving it writes nothing to the context. *)
Theorem execute_appends_resolved_filenames `{ActionBase}
    (filenames : list PyObj) (kwargs : Kwargs) (self : SetParametersFromFiles)
    (ctx : LaunchContext) (rs : list string) :
  __init__ (PySeq filenames) kwargs = Ok self →
  global_params_is_list ctx = true →
  resolved_in_turn ctx (_input_files self) rs →
  ∃ ctx', execute self ctx = (Ok tt, ctx') ∧
    global_params_of ctx' = global_params_of ctx ++ rs ∧
    length rs = length filenames.
Proof.
  intros Hinit Hwf Hres. eexists. split_and!.
  - by apply execute_completes.
  - by apply global_params_of_completed.
  - destruct Hres as [-> _]. by eapply init_length.
Qed.

Lemma execute_appends_resolved_filenames_witness :
  ∃ ctx', execute b_then_env context_with_params = (Ok tt, ctx') ∧
    global_params_of ctx' = ["a.yaml"; "b.yaml"; "/etc/p.yaml"] ∧
    length ["b.yaml"; "/etc/p.yaml"] = 2.
Proof.
  apply (execute_appends_resolved_filenames (H := plain_action)
           [PyStr "b.yaml"; PySub (EnvironmentVariable "PARAMS")] ∅
           b_then_env context_with_params ["b.yaml"; "/etc/p.yaml"]).
  - reflexivity.
  - reflexivity.
  - apply resolved_against_context.
    + repeat constructor.
    + repeat constructor.
    + by repeat constructor.
Defined.

(** C2: on an entity with the attribute [filename="a.yaml"], [parse] returns
    the class and keyword arguments in which the parsed attribute is bound to
    [filename]; the constructor's parameter is [filenames], so calling the
    class with these keyword arguments raises [TypeError] instead of building
    an action. *)
Theorem parse_kwargs_refused_by_constructor :
  ∃ kwargs,
    parse (H := plain_action) filename_entity literal_parser =
      Ok (SetParametersFromFiles_cls, kwargs) ∧
    kwargs !! "filename" = Some (PySeq [PySub (TextSubstitution "a.yaml")]) ∧
    kwargs !! "filenames" = None ∧
    SetParametersFromFiles_call (H := plain_action) kwargs =
      Raise (TypeError "__init__() missing 1 required positional argument: 'filenames'") ∧
    instantiate_action (H := plain_action) filename_entity literal_parser =
      Raise (TypeError "__init__() missing 1 required positional argument: 'filenames'").
Proof. eexists. split_and!; [reflexivity | done ..]. Qed.

(** The same for every base class whose [parse] does not bind [filenames]
    and every entity and parser: what [parse] returns is refused by the
    constructor. *)
Lemma parse_then_call_raises `{ActionBase} entity parser action_type kwargs :
  (∀ t kw, Action_parse entity parser = Ok (t, kw) → kw !! "filenames" = None) →
  parse entity parser = Ok (action_type, kwargs) →
  action_type = SetParametersFromFiles_cls ∧
  (∃ attr subs, get_attr entity "filename" = Ok attr ∧
     parse_substitution parser attr = Ok subs ∧
     kwargs !! "filename" = Some (PySeq (PySub <$> subs))) ∧
  SetParametersFromFiles_call kwargs =
    Raise (TypeError "__init__() missing 1 required positional argument: 'filenames'").
Proof.
  intros Hbase. unfold parse, mbind, Result_bind.
  destruct (Action_parse entity parser) as [[t kw] | e] eqn:Hparse; [| done].
  destruct (get_attr entity "filename") as [attr | e]; [| done].
  destruct (parse_substitution parser attr) as [subs | e] eqn:Hsubs; [| done].
  intros [= <- <-]. split_and!; [done | |].
  - exists attr, subs. by rewrite lookup_insert_eq.
  - unfold SetParametersFromFiles_call.
    by rewrite lookup_insert_ne, (Hbase _ _ eq_refl).
Qed.

(** C3, as stated, fails when the key is absent: executing an action without
    filenames on the empty context binds [global_params], so the entry of the
    key is not what it was before the call. *)
Lemma no_files_creates_global_params :
  __init__ (H := plain_action) (PySeq []) ∅ = Ok no_files ∧
  (execute no_files empty_context).1 = Ok tt ∧
  launch_configurations empty_context !! "global_params" = None ∧
  launch_configurations (execute no_files empty_context).2 !! "global_params"
    = Some (VList 0) ∧
  launch_configurations (execute no_files empty_context).2 !! "global_params"
    ≠ launch_configurations empty_context !! "global_params".
Proof. split_and!; [reflexivity | done ..]. Qed.

(** C3, amended: executing an action constructed without filenames completes
    on every context and leaves the value read for [global_params] (the empty
    list when the key is absent) unchanged; a binding of the key and every
    existing list object are unchanged; when the key was absent it is now
    bound to a new, empty list. *)
Theorem execute_without_filenames `{ActionBase}
    (kwargs : Kwargs) (self : SetParametersFromFiles) (ctx : LaunchContext) :
  __init__ (PySeq []) kwargs = Ok self →
  ∃ ctx', execute self ctx = (Ok tt, ctx') ∧
    global_params_of ctx' = global_params_of ctx ∧
    (∀ v, launch_configurations ctx !! "global_params" = Some v →
       launch_configurations ctx' !! "global_params" = Some v) ∧
    (∀ l xs, objects ctx !! l = Some xs → objects ctx' !! l = Some xs) ∧
    (launch_configurations ctx !! "global_params" = None →
       ∃ l, launch_configurations ctx' !! "global_params" = Some (VList l) ∧
         objects ctx !! l = None ∧ objects ctx' !! l = Some []).
Proof.
  intros Hfiles%init_no_filenames. eexists. split_and!.
  - by apply execute_no_files.
  - apply global_params_of_no_files.
  - intros v Hv. simpl. rewrite lookup_insert_eq. unfold list_handle.
    by rewrite Hv.
  - intros l xs Hl. simpl. by apply lookup_app_l_Some.
  - intros Habsent. exists (length (objects ctx)). simpl.
    rewrite lookup_insert_eq. unfold list_handle. rewrite Habsent.
    split_and!; [done | by apply lookup_ge_None | by apply list_lookup_middle].
Qed.

Lemma execute_without_filenames_witness :
  (∃ ctx', execute no_files context_with_params = (Ok tt, ctx') ∧
     global_params_of ctx' = ["a.yaml"] ∧
     launch_configurations ctx' !! "global_params" = Some (VList 0) ∧
     objects ctx' !! 0 = Some ["a.yaml"]) ∧
  (∃ ctx', execute no_files empty_context = (Ok tt, ctx') ∧
     global_params_of ctx' = [] ∧
     ∃ l, launch_configurations ctx' !! "global_params" = Some (VList l) ∧
       objects empty_context !! l = None ∧ objects ctx' !! l = Some []).
Proof.
  split.
  - destruct (execute_without_filenames (H := plain_action) ∅ no_files
                context_with_params)
      as (ctx' & Hexec & Hread & Hbound & Hobjects & _); [reflexivity |].
    exists ctx'. split_and!;
      [exact Hexec | exact Hread | by apply Hbound | by apply Hobjects].
  - destruct (execute_without_filenames (H := plain_action) ∅ no_files
                empty_context)
      as (ctx' & Hexec & Hread & _ & _ & Hnew); [reflexivity |].
    exists ctx'. split_and!; [exact Hexec | exact Hread | by apply Hnew].
Defined.

(** C4: executing the same action twice on one context appends the resolved
    filenames twice: after the second call the key holds the value read
    before the first call followed by the resolved filenames and then by the
    resolved filenames again, each in declaration order.  With at least one
    filename the second call changes what the first one left. *)
Theorem execute_twice_appends_twice `{ActionBase}
    (filenames : list PyObj) (kwargs : Kwargs) (self : SetParametersFromFiles)
    (ctx : LaunchContext) (rs : list string) :
  __init__ (PySeq filenames) kwargs = Ok self →
  global_params_is_list ctx = true →
  resolved_in_turn ctx (_input_files self) rs →
  resolved_in_turn (execute self ctx).2 (_input_files self) rs →
  ∃ ctx1 ctx2,
    execute self ctx = (Ok tt, ctx1) ∧
    execute self ctx1 = (Ok tt, ctx2) ∧
    global_params_of ctx1 = global_params_of ctx ++ rs ∧
    global_params_of ctx2 = global_params_of ctx ++ rs ++ rs ∧
    length rs = length filenames ∧
    (filenames ≠ [] → global_params_of ctx2 ≠ global_params_of ctx1).
Proof.
  intros Hinit Hwf Hres1 Hres2.
  rewrite (execute_completes _ _ _ Hwf Hres1) in Hres2. simpl in Hres2.
  pose proof (completed_is_list ctx rs Hwf) as Hwf1.
  pose proof (global_params_of_completed ctx rs Hwf) as Hgp1.
  assert (length rs = length filenames) as Hlen.
  { destruct Hres1 as [-> _]. by eapply init_length. }
  eexists _, _. split_and!.
  - by apply execute_completes.
  - by apply execute_completes.
  - done.
  - rewrite global_params_of_completed by done. by rewrite Hgp1, <- app_assoc.
  - done.
  - intros Hne. rewrite global_params_of_completed by done.
    intros Heq%(f_equal length). rewrite length_app in Heq.
    destruct filenames; [done |]. destruct rs; simpl in *; [done | lia].
Qed.

Lemma execute_twice_appends_twice_witness :
  ∃ ctx1 ctx2,
    execute b_then_a context_with_params = (Ok tt, ctx1) ∧
    execute b_then_a ctx1 = (Ok tt, ctx2) ∧
    global_params_of ctx1 = ["a.yaml"; "b.yaml"; "a.yaml"] ∧
    global_params_of ctx2 = ["a.yaml"; "b.yaml"; "a.yaml"; "b.yaml"; "a.yaml"] ∧
    length ["b.yaml"; "a.yaml"] = 2 ∧
    ([PyStr "b.yaml"; PyStr "a.yaml"] ≠ [] →
     global_params_of ctx2 ≠ global_params_of ctx1).
Proof.
  apply (execute_twice_appends_twice (H := plain_action)
           [PyStr "b.yaml"; PyStr "a.yaml"] ∅ b_then_a context_with_params
           ["b.yaml"; "a.yaml"]).
  - reflexivity.
  - reflexivity.
  - apply (texts_resolved_in_turn context_with_params ["b.yaml"; "a.yaml"]).
  - apply (texts_resolved_in_turn _ ["b.yaml"; "a.yaml"]).
Defined.

(** C5: executing an action constructed with ["x.yaml"] and then one
    constructed with ["y.yaml"] on the same context leaves under
    [global_params] the value read before followed by "x.yaml" and then
    "y.yaml". *)
Theorem executions_accumulate `{ActionBase}
    (kwargs_a kwargs_b : Kwargs) (A B : SetParametersFromFiles)
    (ctx : LaunchContext) :
  __init__ (PySeq [PyStr "x.yaml"]) kwargs_a = Ok A →
  __init__ (PySeq [PyStr "y.yaml"]) kwargs_b = Ok B →
  global_params_is_list ctx = true →
  ∃ ctx1 ctx2,
    execute A ctx = (Ok tt, ctx1) ∧
    execute B ctx1 = (Ok tt, ctx2) ∧
    global_params_of ctx2 = global_params_of ctx ++ ["x.yaml"; "y.yaml"].
Proof.
  intros HA%init_one_text HB%init_one_text Hwf.
  pose proof (texts_resolved_in_turn ctx ["x.yaml"]) as Hx. simpl in Hx.
  rewrite <- HA in Hx.
  pose proof (completed_is_list ctx ["x.yaml"] Hwf) as Hwf1.
  eexists _, _. split_and!.
  - by apply execute_completes.
  - apply execute_completes; [done |]. rewrite HB.
    apply (texts_resolved_in_turn _ ["y.yaml"]).
  - rewrite !global_params_of_completed by done. by rewrite <- app_assoc.
Qed.

Lemma executions_accumulate_witness :
  ∃ ctx1 ctx2,
    execute {| _input_files := [[TextSubstitution "x.yaml"]] |}
      context_with_params = (Ok tt, ctx1) ∧
    execute {| _input_files := [[TextSubstitution "y.yaml"]] |} ctx1
      = (Ok tt, ctx2) ∧
    global_params_of ctx2 = ["a.yaml"; "x.yaml"; "y.yaml"].
Proof.
  apply (executions_accumulate (H := plain_action) ∅ ∅
           {| _input_files := [[TextSubstitution "x.yaml"]] |}
           {| _input_files := [[TextSubstitution "y.yaml"]] |}
           context_with_params); reflexivity.
Defined.

(** C6, as stated, fails for an action that holds a substitution writing to
    the context: [execute] hands the context to every substitution it
    resolves, and here the completed call leaves the key [anon] bound, which
    was absent before. *)
Lemma recording_substitution_binds_other_key :
  (execute recording_action context_with_params).1 = Ok tt ∧
  launch_configurations context_with_params !! "anon" = None ∧
  launch_configurations (execute recording_action context_with_params).2 !! "anon"
    = Some (VText "node_1") ∧
  launch_configurations (execute recording_action context_with_params).2 !! "anon"
    ≠ launch_configurations context_with_params !! "anon".
Proof. split_and!; [reflexivity | done ..]. Qed.

(** C6, amended: for every action whose stored substitutions write nothing
    to the context, every context and every outcome, the only effect of
    [execute] is on what is under [global_params].  Every other key keeps
    its binding, and keeps the value read through it unless it is bound to
    the very list object [global_params] is bound to; the ambient data are
    unchanged; every list object other than the one bound to
    [global_params] keeps its contents; no file is opened; and the method,
    run on the action object and the context, leaves the action with the
    stored sequences it had and the context as [execute] gives it.  No step
    looks at the file a resolved name refers to: the call completes whenever
    all the sequences resolve. *)
Theorem execute_changes_only_global_params
    (self : SetParametersFromFiles) (ctx : LaunchContext) (k : string) :
  Forall (Forall writes_nothing) (_input_files self) →
  k ≠ "global_params" →
  launch_configurations (execute self ctx).2 !! k
    = launch_configurations ctx !! k ∧
  (∀ l xs, launch_configurations ctx !! k = Some (VList l) →
     objects ctx !! l = Some xs →
     launch_configurations ctx !! "global_params" ≠ Some (VList l) →
     list_under (execute self ctx).2 k = xs) ∧
  environment (execute self ctx).2 = environment ctx ∧
  opened_files (execute self ctx).2 = opened_files ctx ∧
  (∀ l xs, objects ctx !! l = Some xs →
     launch_configurations ctx !! "global_params" ≠ Some (VList l) →
     objects (execute self ctx).2 !! l = Some xs) ∧
  execute_method (self, ctx) = ((execute self ctx).1, (self, (execute self ctx).2)) ∧
  (∀ rs, global_params_is_list ctx = true →
     resolved_in_turn ctx (_input_files self) rs →
     (execute self ctx).1 = Ok tt).
Proof.
  intros Hpure Hk.
  destruct (execute_frame self ctx Hpure) as (Hcfg & Henv & Hfiles & Hobj).
  split_and!; [by apply Hcfg | | done | done | done | |].
  - intros l xs Hkey Hl Hne. unfold list_under.
    by rewrite (Hcfg k Hk), Hkey, (Hobj l xs Hl Hne).
  - apply execute_method_execute.
  - intros rs Hwf Hres. by rewrite (execute_completes _ _ _ Hwf Hres).
Qed.

Lemma execute_changes_only_global_params_witness :
  launch_configurations (execute b_then_env context_with_other_keys).2
    !! "use_sim_time" = Some (VText "true") ∧
  launch_configurations (execute b_then_env context_with_other_keys).2
    !! "remappings" = Some (VList 1) ∧
  list_under (execute b_then_env context_with_other_keys).2 "remappings"
    = ["chatter:=talk"] ∧
  environment (execute b_then_env context_with_other_keys).2
    = {["PARAMS" := "/etc/p.yaml"]} ∧
  opened_files (execute b_then_env context_with_other_keys).2
    = ["/etc/launch.yaml"] ∧
  (execute_method (b_then_env, context_with_other_keys)).2.1 = b_then_env ∧
  (execute b_then_env context_with_other_keys).1 = Ok tt.
Proof.
  destruct (execute_changes_only_global_params b_then_env
              context_with_other_keys "use_sim_time")
    as (Htext & _ & Henv & Hfiles & _ & Hmethod & Hcompletes);
    [repeat constructor | done |].
  destruct (execute_changes_only_global_params b_then_env
              context_with_other_keys "remappings")
    as (Hlist & Hvalue & _); [repeat constructor | done |].
  split_and!.
  - exact Htext.
  - exact Hlist.
  - by apply (Hvalue 1 ["chatter:=talk"]).
  - exact Henv.
  - exact Hfiles.
  - by rewrite Hmethod.
  - apply (Hcompletes ["b.yaml"; "/etc/p.yaml"]); [reflexivity |].
    apply resolved_against_context.
    + repeat constructor.
    + repeat constructor.
    + by repeat constructor.
Defined.

(** C7: when the base class accepts the remaining keyword arguments, the
    constructor stores the normalized form of every element of [filenames],
    one stored sequence per element and in input order, provided every
    element is a text, a substitution or a sequence of those; if some element
    is not, construction fails with [InvalidSubstitutionInput].  The
    constructor takes no context, so none is touched. *)
Theorem init_normalizes_in_order `{ActionBase}
    (filenames : list PyObj) (kwargs : Kwargs) :
  Action_init kwargs = Ok tt →
  (Forall (λ f, valid_substitutions_input f = true) filenames →
     ∃ self, __init__ (PySeq filenames) kwargs = Ok self ∧
       Forall2 (λ f subs, normalize_to_list_of_substitutions f = Ok subs)
         filenames (_input_files self)) ∧
  (Exists (λ f, valid_substitutions_input f = false) filenames →
     __init__ (PySeq filenames) kwargs = Raise InvalidSubstitutionInput).
Proof.
  intros Hbase. rewrite (init_sequence _ _ Hbase). split.
  - intros Hvalid.
    assert (∃ stored, Forall2
              (λ f subs, normalize_to_list_of_substitutions f = Ok subs)
              filenames stored) as [stored Hstored].
    { induction Hvalid as [| f rest Hf _ [stored IH]]; [by exists [] |].
      apply normalize_valid in Hf as [subs Hsubs].
      exists (subs :: stored). by constructor. }
    rewrite (for_in_collect_ok _ _ _ [] Hstored). by eexists.
  - intros Hinvalid.
    rewrite (for_in_collect_raise normalize_to_list_of_substitutions
               filenames InvalidSubstitutionInput); [done | |].
    + apply normalize_only_invalid_input.
    + eapply Exists_impl; [exact Hinvalid |]. intros f Hf. simpl in Hf.
      destruct (normalize_to_list_of_substitutions f) as [subs | e] eqn:Hn;
        [| by eexists].
      assert (valid_substitutions_input f = true) as Hv
        by (apply normalize_valid; by eexists).
      congruence.
Qed.

Lemma init_normalizes_in_order_witness :
  (∃ self,
     __init__ (H := plain_action)
       (PySeq [PyStr "b.yaml";
               PySeq [PyStr "/etc/"; PySub (EnvironmentVariable "PARAMS")]]) ∅
       = Ok self ∧
     Forall2 (λ f subs, normalize_to_list_of_substitutions f = Ok subs)
       [PyStr "b.yaml"; PySeq [PyStr "/etc/"; PySub (EnvironmentVariable "PARAMS")]]
       (_input_files self)) ∧
  __init__ (H := plain_action) (PySeq [PyStr "b.yaml"; PyInt 3]) ∅
    = Raise InvalidSubstitutionInput.
Proof.
  split.
  - destruct (init_normalizes_in_order (H := plain_action)
                [PyStr "b.yaml";
                 PySeq [PyStr "/etc/"; PySub (EnvironmentVariable "PARAMS")]]
                ∅) as [Hvalid _]; [reflexivity |].
    apply Hvalid. by repeat constructor.
  - destruct (init_normalizes_in_order (H := plain_action)
                [PyStr "b.yaml"; PyInt 3] ∅) as [_ Hinvalid]; [reflexivity |].
    apply Hinvalid, Exists_cons_tl, Exists_cons_hd. reflexivity.
Defined.

(** C8: when the sequences before the k-th one resolve and the k-th one
    raises, none of them writing to the context, [execute] raises that error
    and never writes the key back.  The
    bindings of the configuration mapping are those from before the call.
    When the key was bound, the k-1 texts resolved so far have been appended
    to the list it is bound to; when the key was absent, the key is still
    absent and every existing list object is unchanged. *)
Theorem execute_error_keeps_partial_appends
    (self : SetParametersFromFiles) (ctx : LaunchContext)
    (pre : list (list Substitution)) (subs : list Substitution)
    (post : list (list Substitution)) (rs : list string) (e : Exception) :
  global_params_is_list ctx = true →
  _input_files self = pre ++ subs :: post →
  resolved_in_turn ctx pre rs →
  resolves_to (at_loop ctx rs) subs (Raise e) →
  ∃ ctx', execute self ctx = (Raise e, ctx') ∧
    length rs = length pre ∧
    launch_configurations ctx' = launch_configurations ctx ∧
    (is_Some (launch_configurations ctx !! "global_params") →
       global_params_of ctx' = global_params_of ctx ++ rs) ∧
    (launch_configurations ctx !! "global_params" = None →
       ∀ l xs, objects ctx !! l = Some xs → objects ctx' !! l = Some xs).
Proof.
  intros Hwf Hfiles Hres Hsubs. exists (at_loop ctx rs). split_and!.
  - by eapply execute_raises.
  - by destruct Hres.
  - done.
  - intros [v Hv]. pose proof (at_loop_target ctx rs Hwf) as Htarget.
    unfold global_params_of at 1. simpl launch_configurations.
    unfold global_params_is_list in Hwf. unfold target_list in Htarget.
    rewrite Hv in *. destruct v as [s | l]; [done |]. by rewrite Htarget.
  - intros Habsent l xs Hl. apply at_loop_keeps_objects; [done |].
    by rewrite Habsent.
Qed.

Lemma execute_error_keeps_partial_appends_witness :
  (∃ ctx', execute env_then_unset context_with_params
             = (Raise (SubstitutionResolutionError "UNSET"), ctx') ∧
     launch_configurations ctx' = launch_configurations context_with_params ∧
     global_params_of ctx' = ["a.yaml"; "/etc/p.yaml"]) ∧
  (∃ ctx', execute
             {| _input_files := [[TextSubstitution "b.yaml"];
                                 [EnvironmentVariable "UNSET"]] |}
             empty_context
             = (Raise (SubstitutionResolutionError "UNSET"), ctx') ∧
     launch_configurations ctx' = ∅).
Proof.
  split.
  - destruct (execute_error_keeps_partial_appends env_then_unset
                context_with_params [[EnvironmentVariable "PARAMS"]]
                [EnvironmentVariable "UNSET"] [[TextSubstitution "c.yaml"]]
                ["/etc/p.yaml"] (SubstitutionResolutionError "UNSET"))
      as (ctx' & Hexec & _ & Hcfg & Hbound & _).
    + reflexivity.
    + reflexivity.
    + split; [reflexivity |].
      intros [| i] subs; [| done]. intros [= <-]. by eexists.
    + reflexivity.
    + exists ctx'. split_and!; [exact Hexec | exact Hcfg |].
      apply Hbound. by eexists.
  - destruct (execute_error_keeps_partial_appends
                {| _input_files := [[TextSubstitution "b.yaml"];
                                    [EnvironmentVariable "UNSET"]] |}
                empty_context [[TextSubstitution "b.yaml"]]
                [EnvironmentVariable "UNSET"] [] ["b.yaml"]
                (SubstitutionResolutionError "UNSET"))
      as (ctx' & Hexec & _ & Hcfg & _ & _).
    + reflexivity.
    + reflexivity.
    + apply (texts_resolved_in_turn empty_context ["b.yaml"]).
    + reflexivity.
    + exists ctx'. split; [exact Hexec | exact Hcfg].
Defined.

(** C9: a call to [execute] that completes leaves [global_params] bound,
    whatever the action and the context.  An action without filenames
    completes on every context, and when the key was absent the key is then
    bound to a list object that is empty. *)
Theorem execute_binds_global_params
    (self : SetParametersFromFiles) (ctx : LaunchContext) :
  (∀ ctx', execute self ctx = (Ok tt, ctx') →
     is_Some (launch_configurations ctx' !! "global_params")) ∧
  (_input_files self = [] →
     ∃ ctx', execute self ctx = (Ok tt, ctx') ∧
       is_Some (launch_configurations ctx' !! "global_params") ∧
       (launch_configurations ctx !! "global_params" = None →
          ∃ l, launch_configurations ctx' !! "global_params" = Some (VList l) ∧
            objects ctx' !! l = Some [])).
Proof.
  split.
  - intros ctx'. rewrite execute_unfold.
    destruct (for_each _ _ _) as [[[] | e] c]; [| done].
    intros [= <-]. simpl. by rewrite lookup_insert_eq.
  - intros Hfiles. eexists. split_and!.
    + by apply execute_no_files.
    + simpl. by rewrite lookup_insert_eq.
    + intros Habsent. exists (length (objects ctx)). simpl.
      rewrite lookup_insert_eq. unfold list_handle. rewrite Habsent.
      split; [done | by apply list_lookup_middle].
Qed.

Lemma execute_binds_global_params_witness :
  is_Some (launch_configurations (execute b_then_a empty_context).2
             !! "global_params") ∧
  ∃ ctx', execute no_files empty_context = (Ok tt, ctx') ∧
    ∃ l, launch_configurations ctx' !! "global_params" = Some (VList l) ∧
      objects ctx' !! l = Some [].
Proof.
  split.
  - apply (proj1 (execute_binds_global_params b_then_a empty_context)).
    reflexivity.
  - destruct (proj2 (execute_binds_global_params no_files empty_context))
      as (ctx' & Hexec & _ & Hnew); [reflexivity |].
    exists ctx'. split; [exact Hexec | by apply Hnew].
Defined.

(** C10: the normalizer maps a single text to the one-element sequence
    holding its literal-text substitution and a single substitution to the
    one-element sequence holding it; a sequence of texts and substitutions
    is mapped element by element, in the same order, each text wrapped as a
    literal-text substitution and each substitution kept, and a sequence
    with any other element is refused.  A literal-text substitution resolves
    to its text in every context and leaves the context as it was.  The
    normalizer is a function of its input alone: it takes no context. *)
Theorem normalizer_contract :
  (∀ s, normalize_to_list_of_substitutions (PyStr s) = Ok [TextSubstitution s]) ∧
  (∀ sub, normalize_to_list_of_substitutions (PySub sub) = Ok [sub]) ∧
  (∀ items,
     normalize_to_list_of_substitutions (PySeq items) =
     match mapM as_substitution items with
     | Some subs => Ok subs
     | None => Raise InvalidSubstitutionInput
     end) ∧
  (∀ items subs,
     normalize_to_list_of_substitutions (PySeq items) = Ok subs →
     length subs = length items) ∧
  (∀ s ctx, perform (TextSubstitution s) ctx = (Ok s, ctx)).
Proof.
  split_and!; [done | done | apply normalize_sequence | | done].
  intros items subs. rewrite normalize_sequence.
  destruct (mapM as_substitution items) as [subs' |] eqn:Hm; [| done].
  intros [= <-]. apply mapM_Some in Hm. symmetry. by eapply Forall2_length.
Qed.

(** * Further properties of the action *)

(** ** The loop, whatever the substitutions do *)

(** The loop either completes, having appended one text per sequence, or
    stops at the first sequence whose resolution raises, having appended one
    text per sequence before it. *)
Lemma loop_outcome l files : ∀ c,
  Forall (Forall writes_nothing) files →
  (∃ rs, for_each files (append_resolved (VList l)) c = (Ok tt, appended l rs c) ∧
     length rs = length files) ∨
  (∃ pre subs post rs e,
     files = pre ++ subs :: post ∧ length rs = length pre ∧
     for_each files (append_resolved (VList l)) c = (Raise e, appended l rs c) ∧
     resolve (appended l rs c) subs = Raise e).
Proof.
  induction files as [| subs files IH]; intros c Hpure.
  - left. exists []. by rewrite appended_nil.
  - apply Forall_cons in Hpure as [Hw Hpure].
    rewrite for_each_cons. pose proof (pure_resolves c subs Hw) as Hsubs.
    destruct (resolve c subs) as [r | e] eqn:Hres.
    + rewrite (append_resolved_ok _ _ _ _ Hsubs).
      destruct (IH (appended l [r] c) Hpure)
        as [(rs & Hloop & Hlen) | (pre & subs' & post & rs & e & -> & Hlen & Hloop & Hraise)].
      * left. exists (r :: rs). rewrite (appended_cons l r rs c).
        split; [done | by simpl; rewrite Hlen].
      * right. exists (subs :: pre), subs', post, (r :: rs), e.
        rewrite (appended_cons l r rs c).
        split_and!; [done | by simpl; rewrite Hlen | done | done].
    + rewrite (append_resolved_raise _ _ _ _ Hsubs).
      right. exists [], subs, files, [], e. by rewrite appended_nil.
Qed.

Lemma at_loop_is_list ctx rs :
  global_params_is_list ctx = true →
  global_params_is_list (at_loop ctx rs) = true.
Proof.
  unfold global_params_is_list; simpl.
  destruct (launch_configurations ctx !! "global_params") as [[s | l] |];
    [done | | done].
  intros Hl%bool_decide_eq_true. apply bool_decide_eq_true.
  rewrite length_alter, length_app; simpl. lia.
Qed.

Lemma global_params_of_at_loop ctx rs :
  global_params_is_list ctx = true →
  is_Some (launch_configurations ctx !! "global_params") →
  global_params_of (at_loop ctx rs) = global_params_of ctx ++ rs.
Proof.
  intros Hwf [v Hv]. pose proof (at_loop_target ctx rs Hwf) as Htarget.
  unfold global_params_of at 1. simpl launch_configurations.
  unfold global_params_is_list in Hwf. unfold target_list in Htarget.
  rewrite Hv in *. destruct v as [s | l]; [done |]. by rewrite Htarget.
Qed.

Lemma global_params_of_at_loop_absent ctx rs :
  launch_configurations ctx !! "global_params" = None →
  global_params_of (at_loop ctx rs) = global_params_of ctx.
Proof. intros Habsent. unfold global_params_of; simpl. by rewrite Habsent. Qed.

(** The outcome of [execute] on a context in which the key is absent or a
    list. *)
Lemma execute_outcome self ctx :
  Forall (Forall writes_nothing) (_input_files self) →
  global_params_is_list ctx = true →
  (∃ rs, length rs = length (_input_files self) ∧
     execute self ctx =
     (Ok tt,
      set_launch_configurations
        (<["global_params" := VList (target_list ctx)]> (launch_configurations ctx))
        (at_loop ctx rs))) ∨
  (∃ pre subs post rs e,
     _input_files self = pre ++ subs :: post ∧ length rs = length pre ∧
     execute self ctx = (Raise e, at_loop ctx rs) ∧
     resolve (at_loop ctx rs) subs = Raise e).
Proof.
  intros Hpure Hwf. rewrite execute_unfold, (list_handle_target _ Hwf).
  destruct (loop_outcome (target_list ctx) (_input_files self)
              (set_objects (objects ctx ++ [[]]) ctx) Hpure)
    as [(rs & -> & Hlen) | (pre & subs & post & rs & e & Hfiles & Hlen & -> & Hraise)].
  - left. by exists rs.
  - right. by exists pre, subs, post, rs, e.
Qed.

(** ** [execute] *)

(** X1: [execute] only ever appends.  When the stored substitutions write
    nothing to the context and [global_params] is absent or a list, then
    whatever the substitutions resolve to and whether the call completes or
    raises, the value read for the key afterwards is the value read before
    followed by some texts: at most one per stored sequence, and exactly one
    per stored sequence when the call completes. *)
Theorem execute_only_appends
    (self : SetParametersFromFiles) (ctx : LaunchContext) :
  Forall (Forall writes_nothing) (_input_files self) →
  global_params_is_list ctx = true →
  ∃ added,
    global_params_of (execute self ctx).2 = global_params_of ctx ++ added ∧
    (length added ≤ length (_input_files self))%nat ∧
    ((execute self ctx).1 = Ok tt → length added = length (_input_files self)).
Proof.
  intros Hpure Hwf.
  destruct (execute_outcome self ctx Hpure Hwf)
    as [(rs & Hlen & ->) | (pre & subs & post & rs & e & Hfiles & Hlen & -> & _)].
  - exists rs. simpl.
    split_and!; [by apply global_params_of_completed | lia | done].
  - simpl.
    destruct (launch_configurations ctx !! "global_params") as [v |] eqn:Hkey.
    + exists rs. split_and!; [| | done].
      * apply global_params_of_at_loop; [done | by rewrite Hkey].
      * rewrite Hfiles, Hlen, length_app. lia.
    + exists []. rewrite app_nil_r.
      split_and!; [by apply global_params_of_at_loop_absent | simpl; lia | done].
Qed.

Lemma execute_only_appends_witness :
  ∃ added,
    global_params_of (execute env_then_unset context_with_params).2
      = ["a.yaml"] ++ added ∧
    (length added ≤ 3)%nat ∧
    ((execute env_then_unset context_with_params).1 = Ok tt → length added = 3).
Proof.
  apply (execute_only_appends env_then_unset context_with_params).
  - repeat constructor.
  - reflexivity.
Defined.

(** X2: [execute] has no failure of its own.  When the stored substitutions
    write nothing to the context and [global_params] is absent or a list, an
    error raised by [execute] is the error raised by resolving one of the
    stored sequences, in the context reached once the texts [done] of the
    sequences before it have been appended; that context is the one the call
    leaves. *)
Theorem execute_raises_only_resolution_errors
    (self : SetParametersFromFiles) (ctx : LaunchContext) (e : Exception) :
  Forall (Forall writes_nothing) (_input_files self) →
  global_params_is_list ctx = true →
  (execute self ctx).1 = Raise e →
  ∃ i subs done,
    _input_files self !! i = Some subs ∧ length done = i ∧
    (execute self ctx).2 = at_loop ctx done ∧
    resolve (at_loop ctx done) subs = Raise e.
Proof.
  intros Hpure Hwf.
  destruct (execute_outcome self ctx Hpure Hwf)
    as [(rs & Hlen & ->) | (pre & subs & post & rs & e' & Hfiles & Hlen & -> & Hraise)];
    [done |].
  simpl. intros [= <-]. exists (length pre), subs, rs.
  split_and!; [| done | done | done].
  rewrite Hfiles. by apply list_lookup_middle.
Qed.

Lemma execute_raises_only_resolution_errors_witness :
  ∃ i subs done,
    _input_files env_then_unset !! i = Some subs ∧ length done = i ∧
    (execute env_then_unset context_with_params).2
      = at_loop context_with_params done ∧
    resolve (at_loop context_with_params done) subs
      = Raise (SubstitutionResolutionError "UNSET").
Proof.
  apply (execute_raises_only_resolution_errors env_then_unset
           context_with_params (SubstitutionResolutionError "UNSET")).
  - repeat constructor.
  - reflexivity.
  - reflexivity.
Defined.

(** X3: that [global_params] is absent or bound to an existing list is kept
    by [execute], whether it completes or raises, when the stored
    substitutions write nothing to the context; so calls can follow one
    another. *)
Theorem execute_keeps_global_params_a_list
    (self : SetParametersFromFiles) (ctx : LaunchContext) :
  Forall (Forall writes_nothing) (_input_files self) →
  global_params_is_list ctx = true →
  global_params_is_list (execute self ctx).2 = true.
Proof.
  intros Hpure Hwf.
  destruct (execute_outcome self ctx Hpure Hwf)
    as [(rs & Hlen & ->) | (pre & subs & post & rs & e & Hfiles & Hlen & -> & _)].
  - by apply completed_is_list.
  - by apply at_loop_is_list.
Qed.

Lemma execute_keeps_global_params_a_list_witness :
  global_params_is_list (execute env_then_unset empty_context).2 = true ∧
  global_params_is_list (execute b_then_env context_with_params).2 = true.
Proof.
  split.
  - apply (execute_keeps_global_params_a_list env_then_unset empty_context);
      [repeat constructor | reflexivity].
  - apply (execute_keeps_global_params_a_list b_then_env context_with_params);
      [repeat constructor | reflexivity].
Defined.

(** X4: when [global_params] is already bound and the stored substitutions
    write nothing to the context, [execute] binds no key anew: whatever the
    outcome, the configuration mapping after the call is the mapping from
    before, the key still bound to the same object.  All the change is
    inside the list object. *)
Theorem execute_keeps_bindings_when_bound
    (self : SetParametersFromFiles) (ctx : LaunchContext) :
  Forall (Forall writes_nothing) (_input_files self) →
  is_Some (launch_configurations ctx !! "global_params") →
  launch_configurations (execute self ctx).2 = launch_configurations ctx.
Proof.
  intros Hpure [v Hv]. rewrite execute_unfold.
  pose proof (for_each_frame (list_handle ctx) (_input_files self)
                (set_objects (objects ctx ++ [[]]) ctx) Hpure) as Hloop.
  simpl in Hloop. destruct Hloop as (Hcfg & _).
  destruct (for_each _ _ _) as [[[] | e] c]; simpl in *; [| done].
  rewrite Hcfg. apply insert_id. unfold list_handle. by rewrite Hv.
Qed.

Lemma execute_keeps_bindings_when_bound_witness :
  launch_configurations (execute b_then_env context_with_alias).2
    = launch_configurations context_with_alias.
Proof.
  apply (execute_keeps_bindings_when_bound b_then_env context_with_alias).
  - repeat constructor.
  - by eexists.
Defined.

(** X5: the list is shared, not copied.  When another key is bound to the
    list object that [global_params] is bound to, a completed [execute] shows
    through that key too: the value read for it is the value read before
    followed by the resolved filenames. *)
Theorem execute_shows_through_aliases
    (self : SetParametersFromFiles) (ctx : LaunchContext)
    (key : string) (l : loc) (rs : list string) :
  launch_configurations ctx !! "global_params" = Some (VList l) →
  launch_configurations ctx !! key = Some (VList l) →
  is_Some (objects ctx !! l) →
  resolved_in_turn ctx (_input_files self) rs →
  (execute self ctx).1 = Ok tt ∧
  list_under (execute self ctx).2 key = list_under ctx key ++ rs.
Proof.
  intros Hgp Hkey [xs Hl] Hres.
  assert (global_params_is_list ctx = true) as Hwf.
  { unfold global_params_is_list. rewrite Hgp. apply bool_decide_eq_true.
    by eapply lookup_lt_Some. }
  rewrite (execute_completes _ _ _ Hwf Hres). split; [done |].
  assert (target_list ctx = l) as Htl by (unfold target_list; by rewrite Hgp).
  assert (global_params_of ctx = xs) as Hprior
    by (unfold global_params_of; by rewrite Hgp, Hl).
  pose proof (at_loop_target ctx rs Hwf) as Htarget.
  unfold at_loop in Htarget. simpl in Htarget. rewrite Htl, Hprior in Htarget.
  assert (list_under ctx key = xs) as ->
    by (unfold list_under; by rewrite Hkey, Hl).
  unfold list_under; simpl launch_configurations.
  assert ((<["global_params" := VList (target_list ctx)]>
             (launch_configurations ctx) : gmap string value) !! key
          = Some (VList l)) as ->.
  { destruct (decide (key = "global_params")) as [-> | Hne].
    - by rewrite lookup_insert_eq, Htl.
    - by rewrite lookup_insert_ne. }
  simpl. rewrite Htl. by rewrite Htarget.
Qed.

Lemma execute_shows_through_aliases_witness :
  (execute b_then_env context_with_alias).1 = Ok tt ∧
  list_under (execute b_then_env context_with_alias).2 "saved_params"
    = ["a.yaml"] ++ ["b.yaml"; "/etc/p.yaml"].
Proof.
  apply (execute_shows_through_aliases b_then_env context_with_alias
           "saved_params" 0 ["b.yaml"; "/etc/p.yaml"]).
  - reflexivity.
  - reflexivity.
  - by eexists.
  - apply resolved_against_context.
    + repeat constructor.
    + repeat constructor.
    + by repeat constructor.
Defined.

Lemma at_loop_nil_text ctx s :
  launch_configurations ctx !! "global_params" = Some (VText s) →
  at_loop ctx [] = set_objects (objects ctx ++ [[]]) ctx.
Proof.
  intros Hkey. unfold at_loop. f_equal. apply list_alter_id.
  intros xs. apply app_nil_r.
Qed.

Lemma append_resolved_text s subs c :
  Forall writes_nothing subs →
  append_resolved (VText s) subs c =
  (match resolve c subs with
   | Ok _ => Raise (AttributeError "append")
   | Raise e => Raise e
   end, c).
Proof.
  intros Hpure. rewrite (append_resolved_pure _ _ _ Hpure).
  by destruct (resolve c subs).
Qed.

(** X6: when [global_params] is bound to a text instead of a list, an action
    with at least one filename cannot run: the first filename is resolved,
    and if that raises, this is the error of the call; otherwise the append
    raises [AttributeError].  Either way, the substitutions of the first
    filename writing nothing to the context, the configuration mapping and
    every existing list object are what they were. *)
Theorem execute_on_text_raises
    (self : SetParametersFromFiles) (ctx : LaunchContext) (s : string)
    (subs : list Substitution) (rest : list (list Substitution)) :
  launch_configurations ctx !! "global_params" = Some (VText s) →
  _input_files self = subs :: rest →
  Forall writes_nothing subs →
  (execute self ctx).1 =
    match resolve (at_loop ctx []) subs with
    | Ok _ => Raise (AttributeError "append")
    | Raise e => Raise e
    end ∧
  launch_configurations (execute self ctx).2 = launch_configurations ctx ∧
  ∀ l xs, objects ctx !! l = Some xs →
    objects (execute self ctx).2 !! l = Some xs.
Proof.
  intros Hkey Hfiles Hpure.
  rewrite (at_loop_nil_text _ _ Hkey), execute_unfold, Hfiles.
  unfold list_handle. rewrite Hkey, for_each_cons, append_resolved_text by done.
  destruct (resolve _ subs) as [r | e]; simpl;
    (split_and!; [done | done | intros l xs Hl; by apply lookup_app_l_Some]).
Qed.

Lemma execute_on_text_raises_witness :
  (execute b_then_a context_with_text).1 = Raise (AttributeError "append") ∧
  launch_configurations (execute b_then_a context_with_text).2
    = {["global_params" := VText "a.yaml"]} ∧
  (execute env_then_unset context_with_text).1
    = Raise (SubstitutionResolutionError "PARAMS").
Proof.
  split_and!.
  - apply (execute_on_text_raises b_then_a context_with_text "a.yaml"
             [TextSubstitution "b.yaml"] [[TextSubstitution "a.yaml"]]);
      [reflexivity | reflexivity | repeat constructor].
  - apply (execute_on_text_raises b_then_a context_with_text "a.yaml"
             [TextSubstitution "b.yaml"] [[TextSubstitution "a.yaml"]]);
      [reflexivity | reflexivity | repeat constructor].
  - apply (execute_on_text_raises env_then_unset context_with_text "a.yaml"
             [EnvironmentVariable "PARAMS"]
             [[EnvironmentVariable "UNSET"]; [TextSubstitution "c.yaml"]]);
      [reflexivity | reflexivity | repeat constructor].
Defined.

(** X7: one declaration or two.  Executing an action that holds the
    sequences of [A] followed by those of [B] leaves the same configuration
    mapping and the same value under [global_params] as executing [A] and
    then [B], when the sequences resolve to the same texts either way. *)
Theorem execute_split_declaration
    (A B AB : SetParametersFromFiles) (ctx : LaunchContext)
    (rs1 rs2 : list string) :
  _input_files AB = _input_files A ++ _input_files B →
  global_params_is_list ctx = true →
  resolved_in_turn ctx (_input_files A) rs1 →
  resolved_in_turn (execute A ctx).2 (_input_files B) rs2 →
  resolved_in_turn ctx (_input_files AB) (rs1 ++ rs2) →
  ∃ ctx2 ctx12,
    (execute A ctx).1 = Ok tt ∧
    execute B (execute A ctx).2 = (Ok tt, ctx2) ∧
    execute AB ctx = (Ok tt, ctx12) ∧
    global_params_of ctx2 = global_params_of ctx ++ rs1 ++ rs2 ∧
    global_params_of ctx12 = global_params_of ctx ++ rs1 ++ rs2 ∧
    launch_configurations ctx2 = launch_configurations ctx12.
Proof.
  intros Hfiles Hwf HA HB HAB.
  rewrite (execute_completes _ _ _ Hwf HA) in *. simpl in HB.
  pose proof (completed_is_list ctx rs1 Hwf) as Hwf1.
  eexists _, _. split_and!.
  - done.
  - by apply execute_completes.
  - by apply execute_completes.
  - rewrite global_params_of_completed by done. simpl.
    rewrite global_params_of_completed by done. by rewrite <- app_assoc.
  - by rewrite global_params_of_completed.
  - simpl. unfold target_list at 1; simpl.
    by rewrite lookup_insert_eq, insert_insert_eq.
Qed.

Lemma execute_split_declaration_witness :
  ∃ ctx2 ctx12,
    (execute {| _input_files := [[TextSubstitution "b.yaml"]] |}
       context_with_params).1 = Ok tt ∧
    execute {| _input_files := [[TextSubstitution "a.yaml"]] |}
      (execute {| _input_files := [[TextSubstitution "b.yaml"]] |}
         context_with_params).2 = (Ok tt, ctx2) ∧
    execute b_then_a context_with_params = (Ok tt, ctx12) ∧
    global_params_of ctx2 = ["a.yaml"; "b.yaml"; "a.yaml"] ∧
    global_params_of ctx12 = ["a.yaml"; "b.yaml"; "a.yaml"] ∧
    launch_configurations ctx2 = launch_configurations ctx12.
Proof.
  apply (execute_split_declaration
           {| _input_files := [[TextSubstitution "b.yaml"]] |}
           {| _input_files := [[TextSubstitution "a.yaml"]] |}
           b_then_a context_with_params ["b.yaml"] ["a.yaml"]).
  - reflexivity.
  - reflexivity.
  - apply (texts_resolved_in_turn context_with_params ["b.yaml"]).
  - apply (texts_resolved_in_turn _ ["a.yaml"]).
  - apply (texts_resolved_in_turn context_with_params ["b.yaml"; "a.yaml"]).
Defined.

(** ** [parse] *)

(** X8: [parse] raises no error of its own: an error of [parse] is the error
    of the base class's [parse], or, that one having succeeded, the error of
    reading the attribute [filename], or, the attribute having been read, the
    error of the parser on its text; each is passed on unchanged. *)
Theorem parse_raises_only_collaborator_errors `{ActionBase}
    (entity : Entity) (parser : Parser) (e : Exception) :
  parse entity parser = Raise e →
  Action_parse entity parser = Raise e ∨
  (∃ base, Action_parse entity parser = Ok base ∧
     get_attr entity "filename" = Raise e) ∨
  (∃ base attr, Action_parse entity parser = Ok base ∧
     get_attr entity "filename" = Ok attr ∧
     parse_substitution parser attr = Raise e).
Proof.
  unfold parse, mbind, Result_bind.
  destruct (Action_parse entity parser) as [[t kw] | e0]; [| intros [= <-]; by left].
  destruct (get_attr entity "filename") as [attr | e0];
    [| intros [= <-]; right; left; by eexists].
  destruct (parse_substitution parser attr) as [subs | e0] eqn:Hsubs; [done |].
  intros [= <-]. right; right. by eexists _, attr.
Qed.

Lemma parse_raises_only_collaborator_errors_witness :
  Action_parse (ActionBase := plain_action) bare_entity literal_parser
    = Raise (AttributeError "filename") ∨
  (∃ base, Action_parse (ActionBase := plain_action) bare_entity literal_parser
             = Ok base ∧
     get_attr bare_entity "filename" = Raise (AttributeError "filename")) ∨
  (∃ base attr,
     Action_parse (ActionBase := plain_action) bare_entity literal_parser
       = Ok base ∧
     get_attr bare_entity "filename" = Ok attr ∧
     parse_substitution literal_parser attr = Raise (AttributeError "filename")).
Proof.
  apply (parse_raises_only_collaborator_errors (H := plain_action)
           bare_entity literal_parser (AttributeError "filename")).
  reflexivity.
Defined.

(** X9: what [parse] returns is the class of this action, not the class the
    base [parse] returned, and the keyword arguments of the base class, each
    kept as it was (a condition, for one), with the keyword [filename] added
    or replaced. *)
Theorem parse_keeps_base_keywords `{ActionBase}
    (entity : Entity) (parser : Parser)
    (action_type : ActionType) (kwargs : Kwargs) :
  parse entity parser = Ok (action_type, kwargs) →
  action_type = SetParametersFromFiles_cls ∧
  is_Some (kwargs !! "filename") ∧
  ∃ base_type base_kwargs,
    Action_parse entity parser = Ok (base_type, base_kwargs) ∧
    ∀ key, key ≠ "filename" → kwargs !! key = base_kwargs !! key.
Proof.
  unfold parse, mbind, Result_bind.
  destruct (Action_parse entity parser) as [[t kw] | e]; [| done].
  destruct (get_attr entity "filename") as [attr | e]; [| done].
  destruct (parse_substitution parser attr) as [subs | e]; [| done].
  intros [= <- <-]. split_and!; [done | by rewrite lookup_insert_eq |].
  exists t, kw. split; [done |]. intros key Hkey. by rewrite lookup_insert_ne.
Qed.

Lemma parse_keeps_base_keywords_witness :
  ∃ kwargs,
    parse (H := conditional_action) filename_entity literal_parser
      = Ok (SetParametersFromFiles_cls, kwargs) ∧
    kwargs !! "condition" = Some (PyStr "true") ∧
    is_Some (kwargs !! "filename").
Proof.
  destruct (parse (H := conditional_action) filename_entity literal_parser)
    as [[t kwargs] | e] eqn:Hparse; [| discriminate Hparse].
  destruct (parse_keeps_base_keywords (H := conditional_action)
              filename_entity literal_parser t kwargs Hparse)
    as (-> & Hfilename & tb & kwb & Hbase & Hkept).
  exists kwargs. split_and!; [done | | done].
  rewrite (Hkept "condition") by done.
  injection Hbase as _ <-. reflexivity.
Defined.

(** ** [__init__] *)

Lemma init_items `{ActionBase} filenames items kwargs :
  Action_init kwargs = Ok tt →
  py_iter filenames = Ok items →
  __init__ filenames kwargs =
  match for_in items (collect_step normalize_to_list_of_substitutions) [] with
  | Ok input_files => Ok {| _input_files := input_files |}
  | Raise e => Raise e
  end.
Proof.
  intros Hbase Hiter. unfold __init__, mbind, Result_bind.
  rewrite Hbase, Hiter.
  change (λ (input_files : list (list Substitution)) (filename : PyObj),
            match normalize_to_list_of_substitutions filename with
            | Ok a => Ok (input_files ++ [a])
            | Raise e => Raise e
            end)
    with (collect_step normalize_to_list_of_substitutions).
  by destruct (for_in _ _ _).
Qed.

Lemma valid_inputs_normalize items :
  Forall (λ f, valid_substitutions_input f = true) items →
  ∃ stored, Forall2
    (λ f subs, normalize_to_list_of_substitutions f = Ok subs) items stored.
Proof.
  induction 1 as [| f rest Hf _ [stored IH]]; [by exists [] |].
  apply normalize_valid in Hf as [subs Hsubs].
  exists (subs :: stored). by constructor.
Qed.

Lemma texts_normalized (texts : list string) :
  Forall2 (λ f subs, normalize_to_list_of_substitutions f = Ok subs)
    (PyStr <$> texts) ((λ ch, [TextSubstitution ch]) <$> texts).
Proof. induction texts as [| ch texts IH]; simpl; by constructor. Qed.

Lemma append_empty_r (s : string) : String.append s "" = s.
Proof.
  induction s as [| c t IH]; [done |].
  change (String c (String.append t "") = String c t). by rewrite IH.
Qed.

Lemma concat_cons (x : string) (xs : list string) :
  String.concat "" (x :: xs) = String.append x (String.concat "" xs).
Proof. destruct xs; simpl; [by rewrite append_empty_r | done]. Qed.

(** The characters of a text, put together again, are the text. *)
Lemma code_points_concat (s : string) : String.concat "" (code_points s) = s.
Proof.
  induction s as [| c rest IH]; [done |].
  cbn [code_points]. destruct (starts_with_continuation rest) eqn:Hcont.
  - destruct (code_points rest) as [| ch chars].
    + simpl in IH. by subst rest.
    + rewrite concat_cons. rewrite concat_cons in IH.
      change (String c (String.append ch (String.concat "" chars))
              = String c rest).
      by rewrite IH.
  - rewrite concat_cons.
    change (String c (String.concat "" (code_points rest)) = String c rest).
    by rewrite IH.
Qed.

(** A text without continuation bytes, an ASCII text for one, has one
    character per byte. *)
Lemma code_points_bytes (s : string) :
  Forall (λ c, is_continuation c = false) (String.list_ascii_of_string s) →
  code_points s = (λ c, String c EmptyString) <$> String.list_ascii_of_string s.
Proof.
  induction s as [| c rest IH]; [done |]. simpl String.list_ascii_of_string.
  intros [Hc Hrest]%Forall_cons. cbn [code_points].
  rewrite (IH Hrest).
  destruct rest as [| c' rest']; [done |].
  simpl in Hrest. apply Forall_cons in Hrest as [Hc' _].
  simpl starts_with_continuation. by rewrite Hc'.
Qed.

(** The first character begins with the first byte of the text and goes on
    with continuation bytes; the characters after it are whole. *)
Lemma code_points_shape (s : string) :
  match code_points s with
  | [] => s = ""
  | ch :: chars =>
      (∃ c k rest, ch = String c k ∧ s = String c rest ∧
         forallb is_continuation (String.list_ascii_of_string k) = true) ∧
      Forall (λ ch, is_character ch = true) chars
  end.
Proof.
  induction s as [| c rest IH]; [done |].
  cbn [code_points]. destruct (starts_with_continuation rest) eqn:Hcont.
  - destruct (code_points rest) as [| ch chars]; [by subst rest |].
    destruct IH as [(c' & k' & rest' & -> & -> & Hk') Hchars].
    split; [| done]. exists c, (String c' k'), (String c' rest').
    split_and!; [done | done |]. simpl in *. by rewrite Hcont.
  - split; [by exists c, "", rest |].
    destruct (code_points rest) as [| ch chars]; [done |].
    destruct IH as [(c' & k' & rest' & -> & -> & Hk') Hchars].
    constructor; [| done]. simpl in *. by rewrite Hcont.
Qed.

Lemma code_points_characters (s : string) :
  starts_with_continuation s = false →
  Forall (λ ch, is_character ch = true) (code_points s).
Proof.
  intros Hs. pose proof (code_points_shape s) as Hshape.
  destruct (code_points s) as [| ch chars]; [done |].
  destruct Hshape as [(c & k & rest & -> & -> & Hk) Hchars].
  constructor; [| done]. simpl in *. by rewrite Hs.
Qed.

Lemma length_list_ascii (s : string) :
  length (String.list_ascii_of_string s) = String.length s.
Proof. induction s as [| c s IH]; simpl; congruence. Qed.

(** X10: a single text given where the collection of filenames is expected
    is taken apart: when the base class accepts the keyword arguments,
    construction succeeds and stores one filename per character of the text,
    each a literal of that one character, in order; put together they give
    the text back, and each is one character in UTF-8 when the text does not
    begin in the middle of one.  For a text of one-byte characters this is
    one filename per byte. *)
Theorem init_text_is_iterated_by_character `{ActionBase}
    (s : string) (kwargs : Kwargs) :
  Action_init kwargs = Ok tt →
  ∃ self, __init__ (PyStr s) kwargs = Ok self ∧
    _input_files self = (λ ch, [TextSubstitution ch]) <$> code_points s ∧
    String.concat "" (code_points s) = s ∧
    (starts_with_continuation s = false →
     Forall (λ ch, is_character ch = true) (code_points s)) ∧
    (Forall (λ c, is_continuation c = false) (String.list_ascii_of_string s) →
     length (_input_files self) = String.length s).
Proof.
  intros Hbase. rewrite (init_items (PyStr s) (str_chars s) kwargs Hbase eq_refl).
  unfold str_chars.
  rewrite (for_in_collect_ok _ _ _ [] (texts_normalized (code_points s))).
  eexists.
  split_and!; [done | done | apply code_points_concat
              | apply code_points_characters |].
  intros Hbytes. simpl.
  by rewrite (code_points_bytes s Hbytes), !length_fmap, length_list_ascii.
Qed.

Lemma init_text_is_iterated_by_character_witness :
  (∃ self, __init__ (H := plain_action) (PyStr "é.y") ∅ = Ok self ∧
     _input_files self =
       [[TextSubstitution "é"]; [TextSubstitution "."]; [TextSubstitution "y"]]) ∧
  (∃ self, __init__ (H := plain_action) (PyStr "a.y") ∅ = Ok self ∧
     length (_input_files self) = 3).
Proof.
  split.
  - destruct (init_text_is_iterated_by_character (H := plain_action) "é.y" ∅)
      as (self & Hinit & Hfiles & _); [reflexivity |].
    exists self. split; [exact Hinit | exact Hfiles].
  - destruct (init_text_is_iterated_by_character (H := plain_action) "a.y" ∅)
      as (self & Hinit & _ & _ & _ & Hlength); [reflexivity |].
    exists self. split; [exact Hinit |].
    apply Hlength. by repeat constructor.
Defined.

(** X11: construction succeeds exactly when the base class accepts the
    keyword arguments, [filenames] can be iterated over, and each of its
    elements is a text, a substitution or a sequence of those.  The base
    class comes first: when it refuses the keyword arguments, its error is
    the error of the construction, whatever [filenames] is. *)
Theorem init_succeeds_iff `{ActionBase} (filenames : PyObj) (kwargs : Kwargs) :
  ((∃ self, __init__ filenames kwargs = Ok self) ↔
   Action_init kwargs = Ok tt ∧
   ∃ items, py_iter filenames = Ok items ∧
     Forall (λ f, valid_substitutions_input f = true) items) ∧
  (∀ e, Action_init kwargs = Raise e → __init__ filenames kwargs = Raise e).
Proof.
  split; [split |].
  - intros [self Hinit].
    pose proof (init_base_accepts _ _ _ Hinit) as Hbase. split; [done |].
    destruct (py_iter filenames) as [items | e] eqn:Hiter.
    + exists items. split; [done |].
      rewrite (init_items _ _ _ Hbase Hiter) in Hinit.
      destruct (for_in _ _ _) as [stored | e] eqn:Hloop; [| done].
      apply for_in_collect_inv in Hloop as (ys & _ & Hys).
      apply Forall_forall. intros f Hf.
      apply list_elem_of_lookup in Hf as [i Hi].
      destruct (Forall2_lookup_l _ _ _ _ _ Hys Hi) as (subs & _ & Hsubs).
      apply normalize_valid. by eexists.
    + unfold __init__, mbind, Result_bind in Hinit.
      by rewrite Hbase, Hiter in Hinit.
  - intros (Hbase & items & Hiter & Hvalid).
    rewrite (init_items _ _ _ Hbase Hiter).
    destruct (valid_inputs_normalize items Hvalid) as [stored Hstored].
    rewrite (for_in_collect_ok _ _ _ [] Hstored). by eexists.
  - intros e Hbase. unfold __init__, mbind, Result_bind. by rewrite Hbase.
Qed.

Lemma init_succeeds_iff_witness :
  (∃ self, __init__ (H := plain_action)
             (PySeq [PyStr "b.yaml"; PySub (EnvironmentVariable "PARAMS")]) ∅
           = Ok self) ∧
  __init__ (H := plain_action) (PyInt 3) {["name" := PyStr "x"]}
    = Raise (TypeError "__init__() got an unexpected keyword argument").
Proof.
  split.
  - apply (proj1 (init_succeeds_iff (H := plain_action)
                    (PySeq [PyStr "b.yaml"; PySub (EnvironmentVariable "PARAMS")])
                    ∅)).
    split; [reflexivity |]. eexists. split; [reflexivity |].
    by repeat constructor.
  - apply (proj2 (init_succeeds_iff (H := plain_action) (PyInt 3)
                    {["name" := PyStr "x"]})).
    reflexivity.
Defined.
